(** * Multi-round inference: the round controller of
      tutorials/03_multiround_inference.ipynb

    The notebook chains five calls of the inference library in a [for]
    loop.  The loop is embedded as a program in a state-and-exception
    monad; the library is a record of operations acting on an opaque
    library state (the heap of library objects together with the random
    generator).  Every library call is written to a call log, so that the
    statements below can speak about which object was passed to which
    call. *)

From Stdlib Require Import ZArith QArith Qabs List Lia Bool SpecFloat.
Import ListNotations.
Close Scope Q_scope.

Set Implicit Arguments.

(** ** Outcome of a Python call: a value, or a raised exception. *)

Inductive Result (E A : Type) : Type :=
| Ok (a : A)
| Raise (e : E).

Arguments Ok {E A} a.
Arguments Raise {E A} e.

Definition is_ok {E A} (r : Result E A) : bool :=
  match r with Ok _ => true | Raise _ => false end.

(** [range(n)] has [max(n, 0)] elements. *)
Definition range_len (n : Z) : nat := Z.to_nat n.

Module Notebook.

Section RoundController.

(** Exceptions, the library state, and the kinds of objects the notebook
    handles.  [Dist] is anything usable as a proposal (the prior, or what
    [set_default_x] returns). *)
Variables Exn World Tensor Simulator Dist Inference Estimator Posterior : Type.

(** The library calls of the loop, as state transformers on [World]. *)
Record Library : Type := {
  lib_simulate_for_sbi :
    Simulator -> Dist -> Z -> World -> Result Exn (Tensor * Tensor) * World;
  lib_append_simulations :
    Inference -> Tensor -> Tensor -> Dist -> World -> Result Exn Inference * World;
  lib_train :
    Inference -> World -> Result Exn Estimator * World;
  lib_build_posterior :
    Inference -> Estimator -> World -> Result Exn Posterior * World;
  lib_set_default_x :
    Posterior -> Tensor -> World -> Result Exn Dist * World
}.

(** One entry of the call log: the call, its arguments, its outcome. *)
Inductive Event : Type :=
| EvSimulate (sim : Simulator) (p : Dist) (n : Z) (r : Result Exn (Tensor * Tensor))
| EvAppend (inf : Inference) (th xs : Tensor) (p : Dist) (r : Result Exn Inference)
| EvTrain (inf : Inference) (r : Result Exn Estimator)
| EvBuild (inf : Inference) (de : Estimator) (r : Result Exn Posterior)
| EvSetDefaultX (post : Posterior) (xo : Tensor) (r : Result Exn Dist).

(** *** Reading the call log *)

(** Proposal argument of every [simulate_for_sbi] call, in call order. *)
Fixpoint proposals_used (l : list Event) : list Dist :=
  match l with
  | [] => []
  | EvSimulate _ p _ _ :: l' => p :: proposals_used l'
  | _ :: l' => proposals_used l'
  end.

(** Batches returned by [simulate_for_sbi], each with the proposal it was
    drawn from: [(theta, x, proposal)]. *)
Fixpoint simulated (l : list Event) : list (Tensor * Tensor * Dist) :=
  match l with
  | [] => []
  | EvSimulate _ p _ (Ok (th, xs)) :: l' => (th, xs, p) :: simulated l'
  | _ :: l' => simulated l'
  end.

(** Arguments [(theta, x, proposal)] of every [append_simulations] call. *)
Fixpoint appended (l : list Event) : list (Tensor * Tensor * Dist) :=
  match l with
  | [] => []
  | EvAppend _ th xs p _ :: l' => (th, xs, p) :: appended l'
  | _ :: l' => appended l'
  end.

(** Every [train] call: the object it was invoked on. *)
Fixpoint train_calls (l : list Event) : list Inference :=
  match l with
  | [] => []
  | EvTrain inf _ :: l' => inf :: train_calls l'
  | _ :: l' => train_calls l'
  end.

(** Density estimators returned by [train]. *)
Fixpoint trained (l : list Event) : list Estimator :=
  match l with
  | [] => []
  | EvTrain _ (Ok de) :: l' => de :: trained l'
  | _ :: l' => trained l'
  end.

(** Successful [build_posterior] calls: [(inference, estimator, posterior)]. *)
Fixpoint built (l : list Event) : list (Inference * Estimator * Posterior) :=
  match l with
  | [] => []
  | EvBuild inf de (Ok post) :: l' => (inf, de, post) :: built l'
  | _ :: l' => built l'
  end.

(** Successful [set_default_x] calls: [(posterior, x, returned proposal)]. *)
Fixpoint conditioned (l : list Event) : list (Posterior * Tensor * Dist) :=
  match l with
  | [] => []
  | EvSetDefaultX post xo (Ok d) :: l' => (post, xo, d) :: conditioned l'
  | _ :: l' => conditioned l'
  end.

(** Outcome of a logged call, forgetting the returned value. *)
Definition ev_raised (ev : Event) : option Exn :=
  match ev with
  | EvSimulate _ _ _ (Raise e) | EvAppend _ _ _ _ (Raise e) | EvTrain _ (Raise e)
  | EvBuild _ _ (Raise e) | EvSetDefaultX _ _ (Raise e) => Some e
  | _ => None
  end.

Definition is_set_default_x (ev : Event) : bool :=
  match ev with EvSetDefaultX _ _ _ => true | _ => false end.

(** The notebook's state: the library state, the call log, and the
    variables that live across iterations. *)
Record State : Type := mkState {
  world : World;
  log : list Event;
  posteriors : list Posterior;
  proposal : Dist;
  posterior : option Posterior
}.

Definition M (A : Type) : Type := State -> Result Exn A * State.

Definition ret {A} (a : A) : M A := fun st => (Ok a, st).

Definition bind {A B} (c : M A) (k : A -> M B) : M B :=
  fun st =>
    match c st with
    | (Ok a, st') => k a st'
    | (Raise e, st') => (Raise e, st')
    end.

(** A library call: run the operation on the library state and log it. *)
Definition call {A} (op : World -> Result Exn A * World)
           (ev : Result Exn A -> Event) : M A :=
  fun st =>
    let (r, w') := op (world st) in
    (r, mkState w' (log st ++ [ev r]) (posteriors st) (proposal st) (posterior st)).

Definition get_proposal : M Dist := fun st => (Ok (proposal st), st).

Definition set_proposal (d : Dist) : M unit :=
  fun st => (Ok tt, mkState (world st) (log st) (posteriors st) d (posterior st)).

Definition set_posterior (p : Posterior) : M unit :=
  fun st => (Ok tt, mkState (world st) (log st) (posteriors st) (proposal st) (Some p)).

(** [posteriors.append(posterior)] *)
Definition posteriors_append (p : Posterior) : M unit :=
  fun st => (Ok tt, mkState (world st) (log st) (posteriors st ++ [p]) (proposal st)
                            (posterior st)).

Fixpoint for_range (n : nat) (body : M unit) : M unit :=
  match n with
  | O => ret tt
  | S n' => bind body (fun _ => for_range n' body)
  end.

Variable L : Library.

Definition simulate_for_sbi (sim : Simulator) (p : Dist) (n : Z) : M (Tensor * Tensor) :=
  call (lib_simulate_for_sbi L sim p n) (EvSimulate sim p n).

Definition append_simulations (inf : Inference) (th xs : Tensor) (p : Dist) : M Inference :=
  call (lib_append_simulations L inf th xs p) (EvAppend inf th xs p).

Definition train (inf : Inference) : M Estimator :=
  call (lib_train L inf) (EvTrain inf).

Definition build_posterior (inf : Inference) (de : Estimator) : M Posterior :=
  call (lib_build_posterior L inf de) (EvBuild inf de).

Definition set_default_x (post : Posterior) (xo : Tensor) : M Dist :=
  call (lib_set_default_x L post xo) (EvSetDefaultX post xo).

(** The objects the cell finds in the namespace.  The cell itself sets
    [num_rounds = 2] and [x_o = torch.zeros(3)]; both are parameters here. *)
Variable simulator : Simulator.
Variable prior : Dist.
Variable inference : Inference.
Variable x_o : Tensor.

Definition num_simulations : Z := 500.

Notation "v <- c ;; k" := (bind c (fun v => k))
  (at level 100, c at next level, right associativity).
Notation "c ;;; k" := (bind c (fun _ => k))
  (at level 100, right associativity).

(** The body of [for _ in range(num_rounds):].  The pair returned by
    [simulate_for_sbi] is unpacked into [theta] and [x]; [train] is called
    on what [append_simulations] returned, [build_posterior] on
    [inference]. *)
Definition round_body : M unit :=
  p <- get_proposal ;;
  sims <- simulate_for_sbi simulator p num_simulations ;;
  appended <- append_simulations inference (fst sims) (snd sims) p ;;
  density_estimator <- train appended ;;
  post <- build_posterior inference density_estimator ;;
  set_posterior post ;;;
  posteriors_append post ;;;
  next <- set_default_x post x_o ;;
  set_proposal next.

(** [posteriors = []; proposal = prior] *)
Definition init (w : World) : State := mkState w [] [] prior None.

Definition round_loop (num_rounds : Z) : M unit :=
  for_range (range_len num_rounds) round_body.

(** The whole cell, started on library state [w]. *)
Definition run_cell (num_rounds : Z) (w : World) : Result Exn unit * State :=
  round_loop num_rounds (init w).

(** Single-round inference, as the tutorial describes it: "we draw
    parameters from the prior, simulate the corresponding data, and then
    train a neural network to obtain the posterior". *)
Definition single_round_inference : M Posterior :=
  sims <- simulate_for_sbi simulator prior num_simulations ;;
  appended <- append_simulations inference (fst sims) (snd sims) prior ;;
  density_estimator <- train appended ;;
  build_posterior inference density_estimator.

(** A library none of whose calls raises. *)
Definition never_raises : Prop :=
  (forall sim p n w, is_ok (fst (lib_simulate_for_sbi L sim p n w)) = true) /\
  (forall inf th xs p w, is_ok (fst (lib_append_simulations L inf th xs p w)) = true) /\
  (forall inf w, is_ok (fst (lib_train L inf w)) = true) /\
  (forall inf de w, is_ok (fst (lib_build_posterior L inf de w)) = true) /\
  (forall post xo w, is_ok (fst (lib_set_default_x L post xo w)) = true).

(** *** The same loop over a library given by relations

    Here a library call relates its arguments and the library state to
    the outcomes it may have; nothing says that there is only one.  The
    round and the loop are the big-step relations of the cell. *)

Record RLibrary : Type := {
  rel_simulate_for_sbi :
    Simulator -> Dist -> Z -> World -> Result Exn (Tensor * Tensor) -> World -> Prop;
  rel_append_simulations :
    Inference -> Tensor -> Tensor -> Dist -> World -> Result Exn Inference -> World -> Prop;
  rel_train :
    Inference -> World -> Result Exn Estimator -> World -> Prop;
  rel_build_posterior :
    Inference -> Estimator -> World -> Result Exn Posterior -> World -> Prop;
  rel_set_default_x :
    Posterior -> Tensor -> World -> Result Exn Dist -> World -> Prop
}.

(** A library of functions, seen as a library of relations. *)
Definition graph : RLibrary :=
  {| rel_simulate_for_sbi := fun sim p n w r w' => lib_simulate_for_sbi L sim p n w = (r, w');
     rel_append_simulations := fun inf th xs p w r w' =>
       lib_append_simulations L inf th xs p w = (r, w');
     rel_train := fun inf w r w' => lib_train L inf w = (r, w');
     rel_build_posterior := fun inf de w r w' => lib_build_posterior L inf de w = (r, w');
     rel_set_default_x := fun post xo w r w' => lib_set_default_x L post xo w = (r, w') |}.

Variable RL : RLibrary.

(** Every call has at most one outcome, given its arguments and the
    library state (which holds the state of the seeded generator). *)
Definition deterministic_library : Prop :=
  (forall sim p n w r1 w1 r2 w2,
      rel_simulate_for_sbi RL sim p n w r1 w1 ->
      rel_simulate_for_sbi RL sim p n w r2 w2 -> r1 = r2 /\ w1 = w2) /\
  (forall inf th xs p w r1 w1 r2 w2,
      rel_append_simulations RL inf th xs p w r1 w1 ->
      rel_append_simulations RL inf th xs p w r2 w2 -> r1 = r2 /\ w1 = w2) /\
  (forall inf w r1 w1 r2 w2,
      rel_train RL inf w r1 w1 -> rel_train RL inf w r2 w2 -> r1 = r2 /\ w1 = w2) /\
  (forall inf de w r1 w1 r2 w2,
      rel_build_posterior RL inf de w r1 w1 ->
      rel_build_posterior RL inf de w r2 w2 -> r1 = r2 /\ w1 = w2) /\
  (forall post xo w r1 w1 r2 w2,
      rel_set_default_x RL post xo w r1 w1 ->
      rel_set_default_x RL post xo w r2 w2 -> r1 = r2 /\ w1 = w2).

(** One iteration: it stops at the first call that raises. *)
Inductive round_rel (st : State) : Result Exn unit -> State -> Prop :=
| RoundSimulateRaises e w1 :
    rel_simulate_for_sbi RL simulator (proposal st) num_simulations (world st) (Raise e) w1 ->
    round_rel st (Raise e)
      (mkState w1
         (log st ++ [EvSimulate simulator (proposal st) num_simulations (Raise e)])
         (posteriors st) (proposal st) (posterior st))
| RoundAppendRaises sims w1 e w2 :
    rel_simulate_for_sbi RL simulator (proposal st) num_simulations (world st) (Ok sims) w1 ->
    rel_append_simulations RL inference (fst sims) (snd sims) (proposal st) w1 (Raise e) w2 ->
    round_rel st (Raise e)
      (mkState w2
         (log st ++ [EvSimulate simulator (proposal st) num_simulations (Ok sims);
                     EvAppend inference (fst sims) (snd sims) (proposal st) (Raise e)])
         (posteriors st) (proposal st) (posterior st))
| RoundTrainRaises sims w1 inf' w2 e w3 :
    rel_simulate_for_sbi RL simulator (proposal st) num_simulations (world st) (Ok sims) w1 ->
    rel_append_simulations RL inference (fst sims) (snd sims) (proposal st) w1 (Ok inf') w2 ->
    rel_train RL inf' w2 (Raise e) w3 ->
    round_rel st (Raise e)
      (mkState w3
         (log st ++ [EvSimulate simulator (proposal st) num_simulations (Ok sims);
                     EvAppend inference (fst sims) (snd sims) (proposal st) (Ok inf');
                     EvTrain inf' (Raise e)])
         (posteriors st) (proposal st) (posterior st))
| RoundBuildRaises sims w1 inf' w2 de w3 e w4 :
    rel_simulate_for_sbi RL simulator (proposal st) num_simulations (world st) (Ok sims) w1 ->
    rel_append_simulations RL inference (fst sims) (snd sims) (proposal st) w1 (Ok inf') w2 ->
    rel_train RL inf' w2 (Ok de) w3 ->
    rel_build_posterior RL inference de w3 (Raise e) w4 ->
    round_rel st (Raise e)
      (mkState w4
         (log st ++ [EvSimulate simulator (proposal st) num_simulations (Ok sims);
                     EvAppend inference (fst sims) (snd sims) (proposal st) (Ok inf');
                     EvTrain inf' (Ok de);
                     EvBuild inference de (Raise e)])
         (posteriors st) (proposal st) (posterior st))
| RoundSetDefaultXRaises sims w1 inf' w2 de w3 post w4 e w5 :
    rel_simulate_for_sbi RL simulator (proposal st) num_simulations (world st) (Ok sims) w1 ->
    rel_append_simulations RL inference (fst sims) (snd sims) (proposal st) w1 (Ok inf') w2 ->
    rel_train RL inf' w2 (Ok de) w3 ->
    rel_build_posterior RL inference de w3 (Ok post) w4 ->
    rel_set_default_x RL post x_o w4 (Raise e) w5 ->
    round_rel st (Raise e)
      (mkState w5
         (log st ++ [EvSimulate simulator (proposal st) num_simulations (Ok sims);
                     EvAppend inference (fst sims) (snd sims) (proposal st) (Ok inf');
                     EvTrain inf' (Ok de);
                     EvBuild inference de (Ok post);
                     EvSetDefaultX post x_o (Raise e)])
         (posteriors st ++ [post]) (proposal st) (Some post))
| RoundCompletes sims w1 inf' w2 de w3 post w4 next w5 :
    rel_simulate_for_sbi RL simulator (proposal st) num_simulations (world st) (Ok sims) w1 ->
    rel_append_simulations RL inference (fst sims) (snd sims) (proposal st) w1 (Ok inf') w2 ->
    rel_train RL inf' w2 (Ok de) w3 ->
    rel_build_posterior RL inference de w3 (Ok post) w4 ->
    rel_set_default_x RL post x_o w4 (Ok next) w5 ->
    round_rel st (Ok tt)
      (mkState w5
         (log st ++ [EvSimulate simulator (proposal st) num_simulations (Ok sims);
                     EvAppend inference (fst sims) (snd sims) (proposal st) (Ok inf');
                     EvTrain inf' (Ok de);
                     EvBuild inference de (Ok post);
                     EvSetDefaultX post x_o (Ok next)])
         (posteriors st ++ [post]) next (Some post)).

(** [n] iterations: the loop ends when they are done or when one raises. *)
Inductive loop_rel : nat -> State -> Result Exn unit -> State -> Prop :=
| LoopDone st : loop_rel O st (Ok tt) st
| LoopRaise n st e st' :
    round_rel st (Raise e) st' -> loop_rel (S n) st (Raise e) st'
| LoopNext n st st1 r st' :
    round_rel st (Ok tt) st1 -> loop_rel n st1 r st' -> loop_rel (S n) st r st'.

Definition cell_rel (num_rounds : Z) (w : World) (r : Result Exn unit) (st' : State) : Prop :=
  loop_rel (range_len num_rounds) (init w) r st'.

(** Iterations begun: each one starts with its [simulate_for_sbi] call. *)
Definition rounds_started (l : list Event) : nat := length (proposals_used l).

(** What the cell does with the posterior of single-round inference:
    keep it, append it to the list, condition it on [x_o]. *)
Definition single_round_cell : M unit :=
  post <- single_round_inference ;;
  set_posterior post ;;;
  posteriors_append post ;;;
  next <- set_default_x post x_o ;;
  set_proposal next.

(** Every [append_simulations] call in the log comes right after a
    [simulate_for_sbi] call that returned the batch it is given, and was
    made on the proposal it is given as tag. *)
Definition append_follows_simulate (l : list Event) : Prop :=
  forall (i : nat) (inf : Inference) (th xs : Tensor) (p : Dist) (r : Result Exn Inference),
    nth_error l i = Some (EvAppend inf th xs p r) ->
    exists (j : nat) (sim : Simulator) (n : Z),
      i = S j /\ nth_error l j = Some (EvSimulate sim p n (Ok (th, xs))).

(** *** What holds between two iterations

    [boundary k st]: [st] is what the notebook looks like after [k]
    iterations that all went through. *)
Definition boundary (k : nat) (st : State) : Prop :=
  length (log st) = (5 * k)%nat /\
  Forall (fun ev => ev_raised ev = None) (log st) /\
  length (posteriors st) = k /\
  map (fun b => (fst (fst b), snd b)) (built (log st))
    = map (fun post => (inference, post)) (posteriors st) /\
  map (fun b => snd (fst b)) (built (log st)) = trained (log st) /\
  length (train_calls (log st)) = k /\
  map fst (conditioned (log st)) = map (fun post => (post, x_o)) (posteriors st) /\
  proposals_used (log st) ++ [proposal st] = prior :: map snd (conditioned (log st)) /\
  appended (log st) = simulated (log st) /\
  length (simulated (log st)) = k /\
  posterior st = last (map Some (posteriors st)) None.

End RoundController.

Arguments EvSimulate {Exn Tensor Simulator Dist Inference Estimator Posterior} sim p n r.
Arguments EvAppend {Exn Tensor Simulator Dist Inference Estimator Posterior} inf th xs p r.
Arguments EvTrain {Exn Tensor Simulator Dist Inference Estimator Posterior} inf r.
Arguments EvBuild {Exn Tensor Simulator Dist Inference Estimator Posterior} inf de r.
Arguments EvSetDefaultX {Exn Tensor Simulator Dist Inference Estimator Posterior} post xo r.
Arguments mkState {Exn World Tensor Simulator Dist Inference Estimator Posterior} world log posteriors proposal posterior.
Arguments init {Exn World Tensor Simulator Dist Inference Estimator Posterior} prior w.
Arguments for_range {Exn World Tensor Simulator Dist Inference Estimator Posterior} n body st.
Arguments round_body {Exn World Tensor Simulator Dist Inference Estimator Posterior} L simulator inference x_o st.
Arguments single_round_inference {Exn World Tensor Simulator Dist Inference Estimator Posterior} L simulator prior inference st.
Arguments round_loop {Exn World Tensor Simulator Dist Inference Estimator Posterior} L simulator inference x_o num_rounds st.
Arguments run_cell {Exn World Tensor Simulator Dist Inference Estimator Posterior} L simulator prior inference x_o num_rounds w.
Arguments never_raises {Exn World Tensor Simulator Dist Inference Estimator Posterior} L.
Arguments rounds_started {Exn Tensor Simulator Dist Inference Estimator Posterior} l.
Arguments append_follows_simulate {Exn Tensor Simulator Dist Inference Estimator Posterior} l.
Arguments single_round_cell {Exn World Tensor Simulator Dist Inference Estimator Posterior} L simulator prior inference x_o st.
Arguments graph {Exn World Tensor Simulator Dist Inference Estimator Posterior} L.
Arguments deterministic_library {Exn World Tensor Simulator Dist Inference Estimator Posterior} RL.
Arguments round_rel {Exn World Tensor Simulator Dist Inference Estimator Posterior} simulator inference x_o RL st r st'.
Arguments loop_rel {Exn World Tensor Simulator Dist Inference Estimator Posterior} simulator inference x_o RL n st r st'.
Arguments cell_rel {Exn World Tensor Simulator Dist Inference Estimator Posterior} simulator prior inference x_o RL num_rounds w r st'.
Arguments boundary {Exn World Tensor Simulator Dist Inference Estimator Posterior} prior inference x_o k st.

End Notebook.

(** ** The trainer

    [append_simulations] and [train] belong to the library's [SNPE] class,
    whose code is not part of the notebook.  They are modelled here from
    the description of the library interface: [add_data(parameters,
    observations, proposal_tag) -> self] appends one round record to the
    accumulated dataset, and [train()] fits the density estimator on the
    full accumulated dataset.  What the fit computes, and the other three
    calls, stay abstract: they act on the rest of the library state and do
    not touch the dataset. *)

Module Trainer.

Section Model.

Variables Exn Rest Row Simulator Dist Inference Estimator Posterior : Type.

(** A batch: one row per simulation. *)
Definition Tensor : Type := list Row.

(** Round record: (parameter batch, observation batch, proposal). *)
Definition RoundRecord : Type := (Tensor * Tensor * Dist)%type.

(** Library state: the accumulated dataset of the inference object, the
    history of the datasets that [train] was run on, and the rest. *)
Record World : Type := mkWorld {
  dataset : list RoundRecord;
  trained_on : list (list RoundRecord);
  rest : Rest
}.

Record Externals : Type := {
  ext_simulate : Simulator -> Dist -> Z -> Rest -> Result Exn (Tensor * Tensor) * Rest;
  ext_fit : list RoundRecord -> Rest -> Result Exn Estimator * Rest;
  ext_build : Inference -> Estimator -> Rest -> Result Exn Posterior * Rest;
  ext_condition : Posterior -> Tensor -> Rest -> Result Exn Dist * Rest
}.

Variable X : Externals.

Definition lift {A} (op : Rest -> Result Exn A * Rest) (w : World) : Result Exn A * World :=
  let (r, s) := op (rest w) in (r, mkWorld (dataset w) (trained_on w) s).

(** Modelled from the spec: [add_data], the library's
    [append_simulations], which is not in the notebook.  "append
    (parameters, observations, proposal-tag) to the accumulated dataset";
    it returns the inference object itself. *)
Definition add_data (inf : Inference) (th xs : Tensor) (p : Dist) (w : World)
  : Result Exn Inference * World :=
  (Ok inf, mkWorld (dataset w ++ [(th, xs, p)]) (trained_on w) (rest w)).

(** Modelled from the spec: [train], which is not in the notebook.
    "retrain the density estimator on the full accumulated dataset". *)
Definition train (inf : Inference) (w : World) : Result Exn Estimator * World :=
  let (r, s) := ext_fit X (dataset w) (rest w) in
  (r, mkWorld (dataset w) (trained_on w ++ [dataset w]) s).

Definition library : Notebook.Library Exn World Tensor Simulator Dist Inference Estimator Posterior :=
  {| Notebook.lib_simulate_for_sbi := fun sim p n => lift (ext_simulate X sim p n);
     Notebook.lib_append_simulations := add_data;
     Notebook.lib_train := train;
     Notebook.lib_build_posterior := fun inf de => lift (ext_build X inf de);
     Notebook.lib_set_default_x := fun post xo => lift (ext_condition X post xo) |}.

(** The training set: the parameter batches of all records, concatenated;
    its size is the number of simulations it holds. *)
Definition all_theta (ds : list RoundRecord) : Tensor :=
  concat (map (fun rec => fst (fst rec)) ds).

Definition dataset_size (ds : list RoundRecord) : nat := length (all_theta ds).

Definition batch_sizes (ds : list RoundRecord) : list nat :=
  map (fun rec => length (fst (fst rec))) ds.

End Model.

Arguments mkWorld {Rest Row Dist} dataset trained_on rest.
Arguments dataset {Rest Row Dist} w.
Arguments trained_on {Rest Row Dist} w.
Arguments rest {Rest Row Dist} w.
Arguments library {Exn Rest Row Simulator Dist Inference Estimator Posterior} X.
Arguments all_theta {Row Dist} ds.
Arguments dataset_size {Row Dist} ds.
Arguments batch_sizes {Row Dist} ds.

End Trainer.

(** ** The simulator of the linear Gaussian example

    [def linear_gaussian(theta):
         return theta + 1.0 + torch.randn_like(theta) * 0.1]

    A tensor is the list of its entries.  The scalar arithmetic is a
    parameter: [fadd] and [fmul] stand for the addition and multiplication
    of the tensor's number type, [one] and [tenth] for the constants [1.0]
    and [0.1].  [randn_like] draws, from the generator, a tensor with the
    shape of its argument. *)

Module LinearGaussian.

Section Simulator.

Variables F Gen : Type.
Variables fadd fmul : F -> F -> F.
Variables one tenth : F.
Variable randn_like : list F -> Gen -> list F * Gen.

(** [t + c] and [t * c] for a scalar [c]: entry by entry. *)
Definition add_scalar (t : list F) (c : F) : list F := map (fun v => fadd v c) t.
Definition mul_scalar (t : list F) (c : F) : list F := map (fun v => fmul v c) t.

(** [a + b] for two tensors of one shape, entry by entry.  Sizes that
    differ give no result (broadcasting between tensors does not arise
    here: [randn_like] returns a tensor of the shape of [theta]). *)
Fixpoint add_tensor (a b : list F) : option (list F) :=
  match a, b with
  | [], [] => Some []
  | u :: a', v :: b' =>
      match add_tensor a' b' with
      | Some c => Some (fadd u v :: c)
      | None => None
      end
  | _, _ => None
  end.

Definition linear_gaussian (theta : list F) (g : Gen) : option (list F) * Gen :=
  let (eps, g') := randn_like theta g in
  (add_tensor (add_scalar theta one) (mul_scalar eps tenth), g').

(** observation = parameter + constant + noise, with constant [1.0] and
    noise [0.1 * eps], entry by entry. *)
Definition observation (theta eps : list F) : list F :=
  map (fun te => fadd (fadd (fst te) one) (fmul tenth (snd te))) (combine theta eps).

End Simulator.

End LinearGaussian.

(** ** A small executable library

    A stand-in for the inference library on which the controller can be
    run: objects are numbers, the library state counts the calls made so
    far, every call returns a value that records the call number, and the
    call number [fail_at] (if any) raises. *)

Module Toy.

Definition World : Type := nat.
Definition Exn : Type := nat.
Definition Tensor : Type := list Z.

Definition tick {A} (fail_at : option nat) (v : A) (w : World) : Result Exn A * World :=
  match fail_at with
  | Some k => if Nat.eqb w k then (Raise w, S w) else (Ok v, S w)
  | None => (Ok v, S w)
  end.

Definition lib (fail_at : option nat) : Notebook.Library Exn World Tensor unit nat nat nat nat :=
  {| Notebook.lib_simulate_for_sbi := fun _ p n w =>
       tick fail_at ([Z.of_nat p; n], [Z.of_nat p + 1; n])%Z w;
     Notebook.lib_append_simulations := fun inf _ _ _ w => tick fail_at inf w;
     Notebook.lib_train := fun inf w => tick fail_at (inf + w) w;
     Notebook.lib_build_posterior := fun inf de w => tick fail_at (10 * de) w;
     Notebook.lib_set_default_x := fun post _ w => tick fail_at (S post) w |}.

Definition prior : nat := 1.
Definition inference : nat := 7.
Definition x_o : Tensor := [0; 0; 0]%Z.

(** The parts of the library that the trainer model leaves open. *)
Definition externals (fail_at : option nat)
  : Trainer.Externals Exn World Z unit nat nat nat nat :=
  {| Trainer.ext_simulate := fun _ p n w =>
       tick fail_at ([Z.of_nat p; n], [Z.of_nat p + 1; n])%Z w;
     Trainer.ext_fit := fun ds w => tick fail_at (length ds + w)%nat w;
     Trainer.ext_build := fun inf de w => tick fail_at (10 * de)%nat w;
     Trainer.ext_condition := fun post _ w => tick fail_at (S post) w |}.

Definition fresh : Trainer.World World Z nat := Trainer.mkWorld [] [] 0%nat.

(** Rational scalars, and a generator that hands out the numbers of a
    given list, then zeros. *)
Definition randn_like (t : list Q) (g : list Q) : list Q * list Q :=
  (firstn (length t) g ++ repeat 0%Q (length t - length g), skipn (length t) g).

Definition linear_gaussian (theta : list Q) (g : list Q) : option (list Q) * list Q :=
  LinearGaussian.linear_gaussian Qplus Qmult 1%Q (1 # 10)%Q randn_like theta g.

(** A library whose simulator is not determined by its arguments and the
library state: each call may return either of two batches. *)
Definition coin : Notebook.RLibrary Exn World Tensor unit nat nat nat nat :=
  {| Notebook.rel_simulate_for_sbi := fun _ _ _ w r w' =>
       w' = S w /\ (r = Ok ([0], [0])%Z \/ r = Ok ([1], [1])%Z);
     Notebook.rel_append_simulations :=
       Notebook.rel_append_simulations (Notebook.graph (lib None));
     Notebook.rel_train := Notebook.rel_train (Notebook.graph (lib None));
     Notebook.rel_build_posterior := Notebook.rel_build_posterior (Notebook.graph (lib None));
     Notebook.rel_set_default_x := Notebook.rel_set_default_x (Notebook.graph (lib None)) |}.

End Toy.


(** ** The rest of the notebook

    The cells around the round loop: the two assignments that open the
    cell when it is executed on a namespace left by earlier cells, the
    sampling cell that follows the loop, and the simulator of the first
    cell.  Then two readings of the call log used to state how the calls
    of a run hang together. *)

Module Cells.

Import Notebook.

Section Cells.

Variables Exn World Tensor Simulator Dist Inference Estimator Posterior : Type.

Local Abbreviation Event := (Event Exn Tensor Simulator Dist Inference Estimator Posterior).
Local Abbreviation State := (State Exn World Tensor Simulator Dist Inference Estimator Posterior).

Variable L : Library Exn World Tensor Simulator Dist Inference Estimator Posterior.
Variable simulator : Simulator.
Variable prior : Dist.
Variable inference : Inference.
Variable x_o : Tensor.

(** [posteriors = []; proposal = prior], on whatever the namespace holds:
    [posterior] keeps the binding it had, the library state goes on. *)
Definition cell_start (st : State) : State :=
  mkState (world st) (log st) [] prior (posterior st).

(** The cell executed on the namespace [st]. *)
Definition run_cell_from (num_rounds : Z) (st : State) : Result Exn unit * State :=
  round_loop L simulator inference x_o num_rounds (cell_start st).

(** [posterior_samples = posterior.sample((10000,), x=x_o)].  Reading the
    name [posterior] raises [name_error] when the name is unbound; the
    call itself is the library's. *)
Definition sample_shape : list Z := [10000%Z].

Definition sample_cell
           (lib_sample : Posterior -> list Z -> Tensor -> World -> Result Exn Tensor * World)
           (name_error : Exn) (st : State) : Result Exn Tensor * State :=
  match posterior st with
  | None => (Raise name_error, st)
  | Some post =>
      let (r, w') := lib_sample post sample_shape x_o (world st) in
      (r, mkState w' (log st) (posteriors st) (proposal st) (posterior st))
  end.

(** Simulator and budget of every [simulate_for_sbi] call. *)
Fixpoint simulate_requests (l : list Event) : list (Simulator * Z) :=
  match l with
  | [] => []
  | EvSimulate sim _ n _ :: l' => (sim, n) :: simulate_requests l'
  | _ :: l' => simulate_requests l'
  end.

(** The object every [build_posterior] call was made on, whether the call
    returned or raised. *)
Fixpoint build_calls (l : list Event) : list Inference :=
  match l with
  | [] => []
  | EvBuild inf _ _ :: l' => inf :: build_calls l'
  | _ :: l' => build_calls l'
  end.

(** Number of simulations asked for over the whole log. *)
Definition simulations_requested (l : list Event) : Z :=
  fold_right Z.add 0%Z (map snd (simulate_requests l)).

(** [follows prev ev]: the call [ev] is the one the loop makes after the
    call [prev], on the value [prev] returned. *)
Definition follows (prev ev : Event) : Prop :=
  match ev with
  | EvSimulate sim p n _ =>
      sim = simulator /\ n = num_simulations /\
      exists post, prev = EvSetDefaultX post x_o (Ok p)
  | EvAppend inf th xs p _ =>
      inf = inference /\ exists sim n, prev = EvSimulate sim p n (Ok (th, xs))
  | EvTrain inf' _ =>
      exists th xs p, prev = EvAppend inference th xs p (Ok inf')
  | EvBuild inf de _ =>
      inf = inference /\ exists inf', prev = EvTrain inf' (Ok de)
  | EvSetDefaultX post xo _ =>
      xo = x_o /\ exists de, prev = EvBuild inference de (Ok post)
  end.

Fixpoint chain (prev : Event) (l : list Event) : Prop :=
  match l with
  | [] => True
  | ev :: l' => follows prev ev /\ chain ev l'
  end.

(** The calls of a cell: the first one simulates from the prior, every
    other one follows the call before it. *)
Definition protocol (l : list Event) : Prop :=
  match l with
  | [] => True
  | ev :: l' =>
      (exists r, ev = EvSimulate simulator prior num_simulations r) /\ chain ev l'
  end.

End Cells.

Arguments cell_start {Exn World Tensor Simulator Dist Inference Estimator Posterior} prior st.
Arguments run_cell_from {Exn World Tensor Simulator Dist Inference Estimator Posterior} L simulator prior inference x_o num_rounds st.
Arguments sample_cell {Exn World Tensor Simulator Dist Inference Estimator Posterior} x_o lib_sample name_error st.
Arguments simulate_requests {Exn Tensor Simulator Dist Inference Estimator Posterior} l.
Arguments simulations_requested {Exn Tensor Simulator Dist Inference Estimator Posterior} l.
Arguments build_calls {Exn Tensor Simulator Dist Inference Estimator Posterior} l.
Arguments follows {Exn Tensor Simulator Dist Inference Estimator Posterior} simulator inference x_o prev ev.
Arguments chain {Exn Tensor Simulator Dist Inference Estimator Posterior} simulator inference x_o prev l.
Arguments protocol {Exn Tensor Simulator Dist Inference Estimator Posterior} simulator prior inference x_o l.

(** The simulator of the first cell:
    [simulator = lambda theta: theta + torch.randn_like(theta) * 0.1] *)
Definition simulator_lambda {F Gen : Type} (fadd fmul : F -> F -> F) (tenth : F)
           (randn_like : list F -> Gen -> list F * Gen)
           (theta : list F) (g : Gen) : option (list F) * Gen :=
  let (eps, g') := randn_like theta g in
  (LinearGaussian.add_tensor fadd theta (LinearGaussian.mul_scalar fmul eps tenth), g').

(** The sampling call of the executable library. *)
Definition toy_sample (post : nat) (shape : list Z) (xo : Toy.Tensor) (w : Toy.World)
  : Result Toy.Exn Toy.Tensor * Toy.World :=
  (Ok (Z.of_nat post :: shape ++ xo), S w).

End Cells.

(** ** The two simulators on float32 tensors

    The tensors of the notebook are float32 tensors (the default type of
    [torch.ones], [torch.zeros] and of the samples of the prior).  Their
    entries are IEEE 754 binary32 numbers, with the arithmetic of
    [SpecFloat] at precision 24 and maximal exponent 128, rounding to
    nearest even.  The literals [1.0] and [0.1] are Python floats, that
    is the binary64 numbers nearest to 1 and to 1/10; combined with a
    float32 tensor they are converted to float32. *)

Module Float32.

Definition prec : Z := 24.
Definition emax : Z := 128.

Definition fadd : spec_float -> spec_float -> spec_float := SFadd prec emax.
Definition fmul : spec_float -> spec_float -> spec_float := SFmul prec emax.

(** The integer [z] as a binary64 number. *)
Definition double_of_Z (z : Z) : spec_float := binary_normalize 53 1024 z 0 false.

(** The Python float written [num/den] in decimal notation: the binary64
    number nearest to the quotient. *)
Definition python_float (num den : Z) : spec_float :=
  SFdiv 53 1024 (double_of_Z num) (double_of_Z den).

(** Conversion of a Python float to float32. *)
Definition of_python_float (x : spec_float) : spec_float :=
  match x with
  | S754_finite s m e => binary_normalize prec emax (cond_Zopp s (Zpos m)) e s
  | _ => x
  end.

(** [1.0] and [0.1] *)
Definition one : spec_float := of_python_float (python_float 1 1).
Definition tenth : spec_float := of_python_float (python_float 1 10).

(** The integer [z] as a float32 number. *)
Definition of_Z (z : Z) : spec_float := binary_normalize prec emax z 0 false.

(** [value_is x q]: the float [x] is finite and its value is the rational [q]. *)
Definition value_is (x : spec_float) (q : Q) : Prop :=
  match x with
  | S754_zero _ => (q == 0)%Q
  | S754_finite s m e => (inject_Z (cond_Zopp s (Zpos m)) * Qpower 2 e == q)%Q
  | _ => False
  end.

Section Simulators.

Variable Gen : Type.
Variable randn_like : list spec_float -> Gen -> list spec_float * Gen.

(** [def linear_gaussian(theta):
       return theta + 1.0 + torch.randn_like(theta) * 0.1] *)
Definition linear_gaussian (theta : list spec_float) (g : Gen)
  : option (list spec_float) * Gen :=
  LinearGaussian.linear_gaussian fadd fmul one tenth randn_like theta g.

(** [simulator = lambda theta: theta + torch.randn_like(theta) * 0.1] *)
Definition simulator (theta : list spec_float) (g : Gen)
  : option (list spec_float) * Gen :=
  Cells.simulator_lambda fadd fmul tenth randn_like theta g.

End Simulators.

(** theta + 1.0 + 0.1 * eps, entry by entry, in float32. *)
Definition observation (theta eps : list spec_float) : list spec_float :=
  LinearGaussian.observation fadd fmul one tenth theta eps.

(** A generator that hands out the numbers of a given list, then zeros. *)
Definition stream_randn_like (t : list spec_float) (g : list spec_float)
  : list spec_float * list spec_float :=
  (firstn (length t) g ++ repeat (S754_zero false) (length t - length g),
   skipn (length t) g).

End Float32.

(** * Properties of the round controller *)

Module RoundFacts.

Import Notebook.

Section Facts.

Variables Exn World Tensor Simulator Dist Inference Estimator Posterior : Type.

Local Abbreviation Event := (Event Exn Tensor Simulator Dist Inference Estimator Posterior).
Local Abbreviation State := (State Exn World Tensor Simulator Dist Inference Estimator Posterior).

(** Each reading of the log goes through a concatenation. *)

Ltac proj_app l :=
  induction l as [| [? ? ? [[? ?]|?] | ? ? ? ? [?|?] | ? [?|?] | ? ? [?|?] | ? ? [?|?]] ? IH];
  intros; simpl; rewrite ?IH; reflexivity.

Lemma proposals_used_app (l l' : list Event) :
  proposals_used (l ++ l') = proposals_used l ++ proposals_used l'.
Proof. proj_app l. Qed.

Lemma simulated_app (l l' : list Event) :
  simulated (l ++ l') = simulated l ++ simulated l'.
Proof. proj_app l. Qed.

Lemma appended_app (l l' : list Event) :
  appended (l ++ l') = appended l ++ appended l'.
Proof. proj_app l. Qed.

Lemma train_calls_app (l l' : list Event) :
  train_calls (l ++ l') = train_calls l ++ train_calls l'.
Proof. proj_app l. Qed.

Lemma trained_app (l l' : list Event) :
  trained (l ++ l') = trained l ++ trained l'.
Proof. proj_app l. Qed.

Lemma built_app (l l' : list Event) :
  built (l ++ l') = built l ++ built l'.
Proof. proj_app l. Qed.

Lemma conditioned_app (l l' : list Event) :
  conditioned (l ++ l') = conditioned l ++ conditioned l'.
Proof. proj_app l. Qed.

Variable L : Library Exn World Tensor Simulator Dist Inference Estimator Posterior.
Variable simulator : Simulator.
Variable prior : Dist.
Variable inference : Inference.
Variable x_o : Tensor.

Local Abbreviation body := (round_body L simulator inference x_o).
Local Abbreviation step := (round_rel simulator inference x_o (graph L)).
Local Abbreviation steps := (loop_rel simulator inference x_o (graph L)).
Local Abbreviation run := (run_cell L simulator prior inference x_o).
Local Abbreviation at_boundary :=
  (@boundary Exn World Tensor Simulator Dist Inference Estimator Posterior prior inference x_o).

(** ** The relational loop *)

Section Relational.

Variable RL : RLibrary Exn World Tensor Simulator Dist Inference Estimator Posterior.

Local Abbreviation rstep := (round_rel simulator inference x_o RL).
Local Abbreviation rsteps := (loop_rel simulator inference x_o RL).

Lemma init_boundary (w : World) : at_boundary 0%nat (init prior w).
Proof.
  unfold boundary, init; cbn. repeat split; auto.
Qed.

Lemma round_ok_boundary (k : nat) (st st' : State) :
  at_boundary k st -> rstep st (Ok tt) st' -> at_boundary (S k) st'.
Proof.
  intros (Hlen & Hok & Hposts & Hbuilt & Htrained & Htrains & Hcond & Hused & Happ & Hsim & Hlast)
         Hstep.
  inversion Hstep as [ | | | | | [th xs] w1 inf' w2 de w3 post w4 next w5 _ _ _ _ _]; subst.
  unfold boundary; cbn [world log posteriors proposal posterior fst snd].
  rewrite proposals_used_app, simulated_app, appended_app, train_calls_app, trained_app,
    built_app, conditioned_app.
  cbn [proposals_used simulated appended train_calls trained built conditioned].
  rewrite !map_app, !length_app, Hbuilt, Htrained, Hcond, Happ, <- app_assoc.
  cbn [map length app fst snd].
  repeat split; try lia; try reflexivity.
  - apply Forall_app; split; [assumption | repeat constructor].
  - rewrite app_comm_cons, <- Hused, <- app_assoc. reflexivity.
  - now rewrite last_last.
Qed.

Lemma loop_ok_boundary (n : nat) :
  forall (j : nat) (st st' : State),
    at_boundary j st -> rsteps n st (Ok tt) st' -> at_boundary (j + n) st'.
Proof.
  induction n as [| n IH]; intros j st st' Hb Hl; inversion Hl; subst.
  - now rewrite Nat.add_0_r.
  - rewrite Nat.add_succ_r. apply (IH (S j) st1); [| assumption].
    eapply round_ok_boundary; eassumption.
Qed.

(** A loop that raises did so in its first failing iteration, after
    [k] iterations that went through. *)
Lemma loop_raise_split (n : nat) :
  forall (st st' : State) (e : Exn),
    rsteps n st (Raise e) st' ->
    exists (k : nat) (stk : State),
      (k < n)%nat /\ rsteps k st (Ok tt) stk /\ rstep stk (Raise e) st'.
Proof.
  induction n as [| n IH]; intros st st' e Hl; inversion Hl; subst.
  - exists 0%nat, st. repeat split; [lia | constructor | assumption].
  - match goal with H : rsteps n _ (Raise e) _ |- _ =>
        destruct (IH _ _ _ H) as (k & stk & Hk & Hpre & Hlast) end.
    exists (S k), stk. repeat split; [lia | econstructor; eassumption | assumption].
Qed.

(** Iterations can be added at the end. *)
Lemma loop_snoc (n : nat) :
  forall (st stn : State) (r : Result Exn unit) (st' : State),
    rsteps n st (Ok tt) stn -> rstep stn r st' -> rsteps (S n) st r st'.
Proof.
  induction n as [| n IH]; intros st stn r st' Hl Hs; inversion Hl; subst.
  - destruct r as [[] | e].
    + eapply LoopNext; [eassumption | constructor].
    + now apply LoopRaise.
  - eapply LoopNext; [eassumption |]. eapply IH; eassumption.
Qed.

(** A loop that went through went through each of its prefixes. *)
Lemma loop_ok_prefix (n : nat) :
  forall (k : nat) (st st' : State),
    (k <= n)%nat -> rsteps n st (Ok tt) st' ->
    exists stk : State, rsteps k st (Ok tt) stk /\ rsteps (n - k) stk (Ok tt) st'.
Proof.
  induction n as [| n IH]; intros k st st' Hk Hl.
  - assert (k = 0%nat) by lia; subst. exists st. split; [constructor | assumption].
  - destruct k as [| k].
    + exists st. split; [constructor | assumption].
    + inversion Hl; subst.
      match goal with H : rsteps n _ (Ok tt) _ |- _ =>
        destruct (IH k _ st' ltac:(lia) H) as (stk & Hpre & Hpost) end.
      exists stk. split; [econstructor; eassumption | assumption].
Qed.

(** A loop that raised within [n] iterations raises within any longer run. *)
Lemma loop_raise_mono (n : nat) :
  forall (m : nat) (st st' : State) (e : Exn),
    (n <= m)%nat -> rsteps n st (Raise e) st' -> rsteps m st (Raise e) st'.
Proof.
  induction n as [| n IH]; intros m st st' e Hm Hl; inversion Hl; subst;
    (destruct m as [| m]; [lia |]).
  - now apply LoopRaise.
  - eapply LoopNext; [eassumption |]. apply IH; [lia | assumption].
Qed.

(** What every iteration preserves holds when the loop ends. *)
Lemma loop_inv (I : State -> Prop) :
  (forall st r st', I st -> rstep st r st' -> I st') ->
  forall (n : nat) (st : State) (r : Result Exn unit) (st' : State),
    rsteps n st r st' -> I st -> I st'.
Proof.
  intros Hstep n st r st' Hl. induction Hl; intros HI; eauto.
Qed.

(** With a deterministic library the round and the loop are functions. *)
Lemma round_rel_functional (st : State) (r1 r2 : Result Exn unit) (st1 st2 : State) :
  deterministic_library RL ->
  rstep st r1 st1 -> rstep st r2 st2 -> r1 = r2 /\ st1 = st2.
Proof.
  intros (Dsim & Dapp & Dtrain & Dbuild & Dcond) H1 H2.
  inversion H1; subst; inversion H2; subst;
    repeat match goal with
      | A : rel_simulate_for_sbi _ _ _ _ _ _ _, B : rel_simulate_for_sbi _ _ _ _ _ _ _ |- _ =>
          destruct (Dsim _ _ _ _ _ _ _ _ A B); clear B; subst
      | A : rel_append_simulations _ _ _ _ _ _ _ _, B : rel_append_simulations _ _ _ _ _ _ _ _ |- _ =>
          destruct (Dapp _ _ _ _ _ _ _ _ _ A B); clear B; subst
      | A : rel_train _ _ _ _ _, B : rel_train _ _ _ _ _ |- _ =>
          destruct (Dtrain _ _ _ _ _ _ A B); clear B; subst
      | A : rel_build_posterior _ _ _ _ _ _, B : rel_build_posterior _ _ _ _ _ _ |- _ =>
          destruct (Dbuild _ _ _ _ _ _ _ A B); clear B; subst
      | A : rel_set_default_x _ _ _ _ _ _, B : rel_set_default_x _ _ _ _ _ _ |- _ =>
          destruct (Dcond _ _ _ _ _ _ _ A B); clear B; subst
      | E : Ok _ = Ok _ |- _ => injection E as E; subst
      | E : Ok _ = Raise _ |- _ => discriminate E
      | E : Raise _ = Ok _ |- _ => discriminate E
      | E : Raise _ = Raise _ |- _ => injection E as E; subst
      end;
    split; reflexivity.
Qed.

Lemma loop_rel_functional (n : nat) :
  deterministic_library RL ->
  forall (st : State) (r1 r2 : Result Exn unit) (st1 st2 : State),
    rsteps n st r1 st1 -> rsteps n st r2 st2 -> r1 = r2 /\ st1 = st2.
Proof.
  intros D. induction n as [| n IH]; intros st r1 r2 st1 st2 H1 H2;
    inversion H1; subst; inversion H2; subst.
  - split; reflexivity.
  - eapply round_rel_functional; eassumption.
  - match goal with A : rstep st _ _, B : rstep st _ _ |- _ =>
        destruct (round_rel_functional D A B) as [E _]; discriminate E end.
  - match goal with A : rstep st _ _, B : rstep st _ _ |- _ =>
        destruct (round_rel_functional D A B) as [E _]; discriminate E end.
  - match goal with A : rstep st _ _, B : rstep st _ _ |- _ =>
        destruct (round_rel_functional D A B) as [_ E]; subst end.
    eapply IH; eassumption.
Qed.

End Relational.

(** ** The function and the relation agree *)

Lemma round_body_step (st : State) : step st (fst (body st)) (snd (body st)).
Proof.
  unfold round_body, bind, get_proposal, simulate_for_sbi, append_simulations, train,
    build_posterior, set_default_x, set_posterior, posteriors_append, set_proposal, call.
  cbn [world log posteriors proposal posterior].
  destruct (lib_simulate_for_sbi L simulator (proposal st) num_simulations (world st))
    as [[sims | e] w1] eqn:E1; cbn [fst snd world log posteriors proposal posterior].
  2: { apply RoundSimulateRaises; cbn; eassumption. }
  destruct (lib_append_simulations L inference (fst sims) (snd sims) (proposal st) w1)
    as [[inf' | e] w2] eqn:E2; cbn [fst snd world log posteriors proposal posterior];
    rewrite <- ?app_assoc; cbn [app].
  2: { eapply RoundAppendRaises; cbn; eassumption. }
  destruct (lib_train L inf' w2) as [[de | e] w3] eqn:E3;
    cbn [fst snd world log posteriors proposal posterior]; rewrite <- ?app_assoc; cbn [app].
  2: { eapply RoundTrainRaises; cbn; eassumption. }
  destruct (lib_build_posterior L inference de w3) as [[post | e] w4] eqn:E4;
    cbn [fst snd world log posteriors proposal posterior]; rewrite <- ?app_assoc; cbn [app].
  2: { eapply RoundBuildRaises; cbn; eassumption. }
  destruct (lib_set_default_x L post x_o w4) as [[next | e] w5] eqn:E5;
    cbn [fst snd world log posteriors proposal posterior]; rewrite <- ?app_assoc; cbn [app].
  - eapply RoundCompletes; cbn; eassumption.
  - eapply RoundSetDefaultXRaises; cbn; eassumption.
Qed.

Lemma for_range_steps (n : nat) (st : State) :
  steps n st (fst (for_range n body st)) (snd (for_range n body st)).
Proof.
  revert st; induction n as [| n IH]; intros st; cbn [for_range].
  - apply LoopDone.
  - unfold bind. pose proof (round_body_step st) as Hb.
    destruct (body st) as [[[] | e] st1]; cbn [fst snd] in *.
    + eapply LoopNext; eauto.
    + now apply LoopRaise.
Qed.

Lemma graph_deterministic : deterministic_library (graph L).
Proof.
  unfold deterministic_library, graph; cbn.
  repeat split; congruence.
Qed.

(** ** From the relation back to the function *)

Lemma steps_for_range (n : nat) (st : State) (r : Result Exn unit) (st' : State) :
  steps n st r st' -> for_range n body st = (r, st').
Proof.
  intros H.
  destruct (loop_rel_functional graph_deterministic H (for_range_steps n st)) as [-> ->].
  now destruct (for_range n body st).
Qed.

Lemma step_body (st : State) (r : Result Exn unit) (st' : State) :
  step st r st' -> body st = (r, st').
Proof.
  intros H.
  destruct (round_rel_functional graph_deterministic H (round_body_step st)) as [-> ->].
  now destruct (body st).
Qed.

Lemma run_steps (num_rounds : Z) (w : World) :
  steps (range_len num_rounds) (init prior w) (fst (run num_rounds w)) (snd (run num_rounds w)).
Proof. apply for_range_steps. Qed.

Lemma run_ok_boundary (num_rounds : Z) (w : World) :
  fst (run num_rounds w) = Ok tt ->
  at_boundary (range_len num_rounds) (snd (run num_rounds w)).
Proof.
  intros Hok. pose proof (run_steps num_rounds w) as H. rewrite Hok in H.
  exact (loop_ok_boundary (init_boundary w) H).
Qed.

(** A run that raises: [k] full iterations, then the one that failed. *)
Lemma run_raise_split (num_rounds : Z) (w : World) (e : Exn) :
  fst (run num_rounds w) = Raise e ->
  exists (k : nat) (stk : State),
    (k < range_len num_rounds)%nat /\ at_boundary k stk /\
    for_range k body (init prior w) = (Ok tt, stk) /\
    step stk (Raise e) (snd (run num_rounds w)).
Proof.
  intros Hr. pose proof (run_steps num_rounds w) as H. rewrite Hr in H.
  destruct (loop_raise_split H) as (k & stk & Hk & Hpre & Hlast).
  exists k, stk. split; [exact Hk | split; [| split; [| exact Hlast]]].
  - exact (loop_ok_boundary (init_boundary w) Hpre).
  - now apply steps_for_range.
Qed.

(** ** What every run leaves behind, whether it raised or not *)

Lemma run_shape (num_rounds : Z) (w : World) :
  let st := snd (run num_rounds w) in
  (exists tail, proposals_used (log st) ++ tail = prior :: map snd (conditioned (log st))) /\
  map (fun b => (fst (fst b), snd b)) (built (log st))
    = map (fun post => (inference, post)) (posteriors st) /\
  (exists more, map fst (conditioned (log st)) ++ more
                = map (fun post => (post, x_o)) (posteriors st)) /\
  (rounds_started (log st) <= range_len num_rounds)%nat /\
  (length (train_calls (log st)) <= rounds_started (log st))%nat.
Proof.
  intros st. subst st. unfold rounds_started.
  destruct (fst (run num_rounds w)) as [[] | e] eqn:Hr.
  - destruct (run_ok_boundary _ _ Hr)
      as (Hlen & Hok & Hposts & Hbuilt & Htrained & Htrains & Hcond & Hused & Happ & Hsim & Hlast).
    assert (Hn : length (proposals_used (log (snd (run num_rounds w))))
                 = range_len num_rounds).
    { apply (f_equal (@length _)) in Hused.
      rewrite length_app in Hused; cbn [length] in Hused.
      rewrite length_map in Hused.
      apply (f_equal (@length _)) in Hcond. rewrite !length_map in Hcond. lia. }
    split; [| split; [| split; [| split]]].
    + eexists; exact Hused.
    + exact Hbuilt.
    + exists []. now rewrite app_nil_r.
    + lia.
    + lia.
  - destruct (run_raise_split _ _ Hr)
      as (k & stk & Hk &
          (Hlen & Hok & Hposts & Hbuilt & Htrained & Htrains & Hcond & Hused & Happ & Hsim & Hlast) &
          _ & Hstep).
    assert (Hn : length (proposals_used (log stk)) = k).
    { apply (f_equal (@length _)) in Hused.
      rewrite length_app in Hused; cbn [length] in Hused.
      rewrite length_map in Hused.
      apply (f_equal (@length _)) in Hcond. rewrite !length_map in Hcond. lia. }
    remember (snd (run num_rounds w)) as st' eqn:Est'. clear Est'.
    inversion Hstep as [ ? ? _ | [? ?] ? ? ? _ _ | [? ?] ? ? ? ? ? _ _ _
                       | [? ?] ? ? ? ? ? ? ? _ _ _ _ | [? ?] ? ? ? ? ? ? ? ? ? _ _ _ _ _ | ];
      subst; cbn [world log posteriors proposal posterior fst snd];
      rewrite proposals_used_app, train_calls_app, built_app, conditioned_app;
      cbn [proposals_used train_calls built conditioned];
      rewrite ?app_nil_r, ?map_app, ?length_app; cbn [map length app fst snd];
      (split; [| split; [| split; [| split]]];
       [ exists []; rewrite app_nil_r, <- Hused; reflexivity
       | rewrite ?Hbuilt; reflexivity
       | first [ exists []; rewrite app_nil_r; exact Hcond
               | eexists; rewrite Hcond; reflexivity ]
       | lia
       | lia ]).
Qed.

Lemma nth_error_map_inv {A B} (f : A -> B) (l : list A) (n : nat) (y : B) :
  nth_error (map f l) n = Some y -> exists x, nth_error l n = Some x /\ f x = y.
Proof.
  rewrite nth_error_map. destruct (nth_error l n) as [x |]; cbn; [| discriminate].
  intros [= <-]. now exists x.
Qed.

Lemma nth_error_prefix {A} (l tail : list A) (n : nat) (x : A) :
  nth_error l n = Some x -> nth_error (l ++ tail) n = Some x.
Proof.
  intros H. rewrite nth_error_app1; [assumption |].
  apply nth_error_Some. congruence.
Qed.

Lemma boundary_rounds_started (k : nat) (st : State) :
  at_boundary k st -> rounds_started (log st) = k.
Proof.
  intros (_ & _ & Hposts & _ & _ & _ & Hcond & Hused & _).
  unfold rounds_started.
  apply (f_equal (@length _)) in Hused.
  rewrite length_app in Hused; cbn [length] in Hused.
  rewrite length_map in Hused.
  apply (f_equal (@length _)) in Hcond. rewrite !length_map in Hcond. lia.
Qed.

(** ** The chain of proposals *)

(** C1.  The proposal passed to [simulate_for_sbi] in the first round is
    the prior; the proposal passed in round [j + 2] is what
    [set_default_x] returned when it was called, in round [j + 1], on the
    posterior built in that round and on the target observation [x_o].
    (Positions in the lists are counted from 0, rounds from 1.)  This
    holds for every run; a run that does not raise makes one
    [simulate_for_sbi] call per round. *)
Theorem proposal_chain (num_rounds : Z) (w : World) :
  let st := snd (run num_rounds w) in
  (fst (run num_rounds w) = Ok tt -> rounds_started (log st) = range_len num_rounds) /\
  forall (k : nat) (d : Dist),
    nth_error (proposals_used (log st)) k = Some d ->
    match k with
    | O => d = prior
    | S j => exists (de : Estimator) (post : Posterior),
               nth_error (built (log st)) j = Some (inference, de, post) /\
               nth_error (conditioned (log st)) j = Some (post, x_o, d)
    end.
Proof.
  intros st. split.
  - intros Hok. apply boundary_rounds_started. now apply run_ok_boundary.
  - destruct (run_shape num_rounds w) as ((tail & Hused) & Hbuilt & (more & Hcond) & _).
    fold st in Hused, Hbuilt, Hcond.
    intros k d Hk.
    apply nth_error_prefix with (tail := tail) in Hk. rewrite Hused in Hk.
    destruct k as [| j]; cbn in Hk.
    + congruence.
    + apply nth_error_map_inv in Hk. destruct Hk as ([[post xo] d'] & Hc & Hd).
      cbn in Hd; subst d'.
      pose proof (map_nth_error fst _ _ Hc) as Hc1. cbn in Hc1.
      apply nth_error_prefix with (tail := more) in Hc1. rewrite Hcond in Hc1.
      apply nth_error_map_inv in Hc1. destruct Hc1 as (post' & Hp & [= -> ->]).
      pose proof (map_nth_error (fun post => (inference, post)) _ _ Hp) as Hb.
      rewrite <- Hbuilt in Hb.
      apply nth_error_map_inv in Hb. destruct Hb as ([[inf de] post''] & Hb & [= -> ->]).
      exists de, post. split; assumption.
Qed.

(** ** The list of posteriors *)

(** C2.  A run of [R >= 1] rounds that does not raise leaves exactly [R]
    posteriors: [build_posterior] returned [R] times, and the entry at
    position [k] of [posteriors] is what the call number [k] returned,
    which was made on the density estimator that the [train] call number
    [k] returned. *)
Theorem posteriors_in_round_order (R : Z) (w : World) :
  (1 <= R)%Z ->
  fst (run R w) = Ok tt ->
  let st := snd (run R w) in
  Z.of_nat (length (posteriors st)) = R /\
  length (built (log st)) = length (posteriors st) /\
  forall k : nat,
    (k < length (posteriors st))%nat ->
    exists (de : Estimator) (post : Posterior),
      nth_error (posteriors st) k = Some post /\
      nth_error (built (log st)) k = Some (inference, de, post) /\
      nth_error (trained (log st)) k = Some de.
Proof.
  intros HR Hok st.
  destruct (run_ok_boundary _ _ Hok)
    as (_ & _ & Hposts & Hbuilt & Htrained & _).
  fold st in Hposts, Hbuilt, Htrained.
  split; [| split].
  - rewrite Hposts. unfold range_len. lia.
  - apply (f_equal (@length _)) in Hbuilt. now rewrite !length_map in Hbuilt.
  - intros k Hk.
    destruct (nth_error (posteriors st) k) as [post |] eqn:Hp;
      [| apply nth_error_None in Hp; lia].
    pose proof (map_nth_error (fun post => (inference, post)) _ _ Hp) as Hb.
    rewrite <- Hbuilt in Hb.
    apply nth_error_map_inv in Hb. destruct Hb as ([[inf de] post'] & Hb & [= -> ->]).
    exists de, post. repeat split; try assumption.
    rewrite <- Htrained. exact (map_nth_error (fun b => snd (fst b)) _ _ Hb).
Qed.

(** ** Number of iterations *)

Lemma never_raises_body (st : State) :
  never_raises L -> exists st', body st = (Ok tt, st').
Proof.
  intros (Nsim & Napp & Ntrain & Nbuild & Ncond).
  pose proof (round_body_step st) as Hs.
  destruct (body st) as [[[] | e] st'] eqn:Hb; cbn [fst snd] in Hs.
  - now exists st'.
  - exfalso.
    inversion Hs; subst;
      match goal with
      | H : rel_simulate_for_sbi _ ?s ?p ?n ?w (Raise _) _ |- _ =>
          specialize (Nsim s p n w); cbn in H; rewrite H in Nsim
      | H : rel_append_simulations _ ?i ?t ?x ?p ?w (Raise _) _ |- _ =>
          specialize (Napp i t x p w); cbn in H; rewrite H in Napp
      | H : rel_train _ ?i ?w (Raise _) _ |- _ =>
          specialize (Ntrain i w); cbn in H; rewrite H in Ntrain
      | H : rel_build_posterior _ ?i ?d ?w (Raise _) _ |- _ =>
          specialize (Nbuild i d w); cbn in H; rewrite H in Nbuild
      | H : rel_set_default_x _ ?q ?x ?w (Raise _) _ |- _ =>
          specialize (Ncond q x w); cbn in H; rewrite H in Ncond
      end; discriminate.
Qed.

Lemma never_raises_loop (n : nat) (st : State) :
  never_raises L -> fst (for_range n body st) = Ok tt.
Proof.
  intros N. revert st. induction n as [| n IH]; intros st; cbn [for_range].
  - reflexivity.
  - unfold bind. destruct (never_raises_body st N) as (st' & ->). apply IH.
Qed.

(** C6.  The loop is a total function of the round count, and it never
    begins more than [num_rounds] iterations.  A run that does not raise
    has begun, and completed, exactly [num_rounds] iterations (none when
    [num_rounds] is negative): five library calls each, whatever the
    library returned.  If no library call raises, the run does not
    raise. *)
Theorem loop_runs_num_rounds_iterations (num_rounds : Z) (w : World) :
  let st := snd (run num_rounds w) in
  (rounds_started (log st) <= range_len num_rounds)%nat /\
  (fst (run num_rounds w) = Ok tt ->
     rounds_started (log st) = range_len num_rounds /\
     length (conditioned (log st)) = range_len num_rounds /\
     length (log st) = (5 * range_len num_rounds)%nat /\
     ((0 <= num_rounds)%Z -> Z.of_nat (rounds_started (log st)) = num_rounds)) /\
  (never_raises L -> fst (run num_rounds w) = Ok tt).
Proof.
  intros st. split; [| split].
  - now destruct (run_shape num_rounds w) as (_ & _ & _ & H & _).
  - intros Hok. pose proof (run_ok_boundary _ _ Hok) as Hb. fold st in Hb.
    pose proof (boundary_rounds_started Hb) as Hn.
    destruct Hb as (Hlen & _ & Hposts & _ & _ & _ & Hcond & _).
    apply (f_equal (@length _)) in Hcond. rewrite !length_map in Hcond.
    repeat split; try congruence.
    intros Hpos. rewrite Hn. unfold range_len. lia.
  - intros N. now apply never_raises_loop.
Qed.

(** ** One round *)

Lemma single_round_cell_body (st : State) :
  proposal st = prior ->
  body st = single_round_cell L simulator prior inference x_o st.
Proof.
  intros Hp.
  unfold round_body, single_round_cell, single_round_inference, bind, get_proposal,
    simulate_for_sbi, call.
  rewrite Hp.
  destruct (lib_simulate_for_sbi L simulator prior num_simulations (world st))
    as [[sims | e] w1]; [| reflexivity].
  unfold append_simulations, call; cbn [world log posteriors proposal posterior].
  destruct (lib_append_simulations L inference (fst sims) (snd sims) prior w1)
    as [[inf' | e] w2]; [| reflexivity].
  unfold train, call; cbn [world log posteriors proposal posterior].
  destruct (lib_train L inf' w2) as [[de | e] w3]; [| reflexivity].
  reflexivity.
Qed.

(** C5.  With one round the cell is single-round inference on the prior,
    followed by the bookkeeping of the loop (keep the posterior, call
    [set_default_x] on it).  The only proposal ever passed to
    [simulate_for_sbi] is the prior and [train] is called at most once;
    when nothing raises, [train] and [build_posterior] are each called
    once, the one posterior in [posteriors] is the posterior of
    single-round inference, and the calls made are those of single-round
    inference followed by the one [set_default_x] call. *)
Theorem one_round_is_single_round (w : World) :
  let st := snd (run 1 w) in
  run 1 w = single_round_cell L simulator prior inference x_o (init prior w) /\
  proposals_used (log st) = [prior] /\
  (length (train_calls (log st)) <= 1)%nat /\
  (fst (run 1 w) = Ok tt ->
     exists (de : Estimator) (post : Posterior) (next : Dist) (st1 : State),
       single_round_inference L simulator prior inference (init prior w) = (Ok post, st1) /\
       log st = log st1 ++ [EvSetDefaultX post x_o (Ok next)] /\
       length (train_calls (log st)) = 1%nat /\
       trained (log st) = [de] /\
       built (log st) = [(inference, de, post)] /\
       posteriors st = [post] /\
       posterior st = Some post).
Proof.
  intros st.
  assert (Hrun : run 1 w = single_round_cell L simulator prior inference x_o (init prior w)).
  { unfold run_cell, round_loop. change (range_len 1) with 1%nat. cbn [for_range].
    rewrite <- single_round_cell_body by reflexivity.
    unfold bind, ret. now destruct (body (init prior w)) as [[[] | e] st']. }
  split; [exact Hrun |].
  subst st. rewrite Hrun.
  unfold single_round_cell, single_round_inference, bind, simulate_for_sbi,
    append_simulations, train, build_posterior, set_default_x, set_posterior,
    posteriors_append, set_proposal, call.
  cbn [init world log posteriors proposal posterior].
  destruct (lib_simulate_for_sbi L simulator prior num_simulations w)
    as [[[th xs] | e] w1]; cbn;
    [| split; [reflexivity | split; [lia | discriminate]]].
  destruct (lib_append_simulations L inference th xs prior w1)
    as [[inf' | e] w2]; cbn;
    [| split; [reflexivity | split; [lia | discriminate]]].
  destruct (lib_train L inf' w2) as [[de | e] w3]; cbn;
    [| split; [reflexivity | split; [lia | discriminate]]].
  destruct (lib_build_posterior L inference de w3) as [[post | e] w4]; cbn;
    [| split; [reflexivity | split; [lia | discriminate]]].
  destruct (lib_set_default_x L post x_o w4) as [[next | e] w5]; cbn;
    [| split; [reflexivity | split; [lia | discriminate]]].
  split; [reflexivity | split; [lia |]].
  intros _. exists de, post, next. eexists. repeat split.
Qed.

(** ** Exceptions *)

(** C8.  Suppose [k] rounds went through and a library call of the next
    round raises [e].  Then the cell ends there, with [e]: its outcome and
    its final state are those of the failing round.  The call that raised
    is the last one in the log and the only one that raised (nothing is
    called again, nothing is called afterwards).  Unless it was the
    [set_default_x] call, that is when [simulate_for_sbi],
    [append_simulations], [train] or [build_posterior] raised, the list
    [posteriors] is the list of the [k] rounds that went through. *)
Theorem exception_propagates
        (num_rounds : Z) (w : World) (k : nat) (stk : State) (e : Exn) (st' : State) :
  (k < range_len num_rounds)%nat ->
  for_range k body (init prior w) = (Ok tt, stk) ->
  body stk = (Raise e, st') ->
  run num_rounds w = (Raise e, st') /\
  length (posteriors stk) = k /\
  exists (pre : list Event) (ev : Event),
    log st' = pre ++ [ev] /\
    Forall (fun ev' => ev_raised ev' = None) pre /\
    ev_raised ev = Some e /\
    (is_set_default_x ev = false -> posteriors st' = posteriors stk).
Proof.
  intros Hk Hpre Hfail.
  pose proof (for_range_steps k (init prior w)) as Hsteps. rewrite Hpre in Hsteps.
  pose proof (round_body_step stk) as Hstep. rewrite Hfail in Hstep.
  cbn [fst snd] in Hsteps, Hstep.
  split; [| split].
  - apply steps_for_range. apply loop_raise_mono with (n := S k); [lia |].
    eapply loop_snoc; eassumption.
  - now destruct (loop_ok_boundary (init_boundary w) Hsteps) as (_ & _ & H & _).
  - destruct (loop_ok_boundary (init_boundary w) Hsteps) as (_ & Hok & _).
    inversion Hstep; subst; cbn [log posteriors];
      match goal with
      | |- exists pre ev, log stk ++ ?l = _ /\ _ =>
          exists (log stk ++ removelast l), (last l (EvTrain inference (Raise e)))
      end;
      cbn [removelast last];
      (split; [rewrite <- app_assoc; reflexivity |]);
      (split; [apply Forall_app; split; [exact Hok | repeat constructor] |]);
      (split; [reflexivity |]);
      cbn; intros; (reflexivity || discriminate).
Qed.

(** ** The proposal tag of a batch *)

Lemma append_follows_simulate_app (l l' : list Event) :
  append_follows_simulate l -> append_follows_simulate l' ->
  append_follows_simulate (l ++ l').
Proof.
  intros Hl Hl' i inf th xs p r Hi.
  destruct (Nat.lt_ge_cases i (length l)) as [Hlt | Hge].
  - rewrite nth_error_app1 in Hi by assumption.
    destruct (Hl _ _ _ _ _ _ Hi) as (j & sim & n & -> & Hj).
    exists j, sim, n. split; [reflexivity |].
    rewrite nth_error_app1 by lia. assumption.
  - rewrite nth_error_app2 in Hi by assumption.
    destruct (Hl' _ _ _ _ _ _ Hi) as (j & sim & n & Hij & Hj).
    exists (length l + j)%nat, sim, n. split; [lia |].
    rewrite nth_error_app2 by lia.
    now replace (length l + j - length l)%nat with j by lia.
  Qed.

Lemma round_keeps_tags (st : State) (r : Result Exn unit) (st' : State) :
  appended (log st) = simulated (log st) /\ append_follows_simulate (log st) ->
  step st r st' ->
  appended (log st') = simulated (log st') /\ append_follows_simulate (log st').
Proof.
  intros [Heq Hadj] Hstep.
  inversion Hstep as [ ? ? _ | [? ?] ? ? ? _ _ | [? ?] ? ? ? ? ? _ _ _
                     | [? ?] ? ? ? ? ? ? ? _ _ _ _ | [? ?] ? ? ? ? ? ? ? ? ? _ _ _ _ _
                     | [? ?] ? ? ? ? ? ? ? ? ? _ _ _ _ _ ];
    subst; cbn [log fst snd];
    (split;
     [ rewrite appended_app, simulated_app, Heq; reflexivity
     | apply append_follows_simulate_app; [exact Hadj |];
       intros i inf0 th0 xs0 p0 r0 Hi;
       do 6 (try (destruct i as [| i]; cbn in Hi; try discriminate Hi));
       injection Hi as; subst;
       eexists 0%nat, _, _; split; reflexivity ]).
Qed.

(** C10.  In every run, the batches and proposal tags passed to
    [append_simulations] are, call for call, the batches that
    [simulate_for_sbi] returned together with the proposals they were
    drawn from; and each [append_simulations] call comes immediately after
    the [simulate_for_sbi] call whose batch and proposal it passes on (no
    other call, so no [set_default_x], lies between the two). *)
Theorem tag_is_generating_proposal (num_rounds : Z) (w : World) :
  let st := snd (run num_rounds w) in
  appended (log st) = simulated (log st) /\
  append_follows_simulate (log st).
Proof.
  intros st.
  pose proof (run_steps num_rounds w) as Hrun.
  eapply (loop_inv (fun s => appended (log s) = simulated (log s)
                             /\ append_follows_simulate (log s)));
    [| exact Hrun |].
  - intros s r s' HI Hs. eapply round_keeps_tags; eassumption.
  - split; [reflexivity |]. intros [| i] ? ? ? ? ? Hi; discriminate Hi.
Qed.

(** ** Repeated runs *)

(** C4.  Let every library call (the simulator included) have a single
    outcome for given arguments and given library state, the state of the
    seeded random generator being part of that state.  Then two runs of
    the cell on the same round count, target observation, batch size and
    initial library state end alike: same outcome, same library state
    (hence same accumulated dataset), same list of posteriors, same
    calls. *)
Theorem runs_agree
        (RL : RLibrary Exn World Tensor Simulator Dist Inference Estimator Posterior)
        (num_rounds : Z) (w : World)
        (r1 r2 : Result Exn unit) (st1 st2 : State) :
  deterministic_library RL ->
  cell_rel simulator prior inference x_o RL num_rounds w r1 st1 ->
  cell_rel simulator prior inference x_o RL num_rounds w r2 st2 ->
  r1 = r2 /\ world st1 = world st2 /\ posteriors st1 = posteriors st2 /\
  log st1 = log st2 /\ st1 = st2.
Proof.
  unfold cell_rel. intros D H1 H2.
  destruct (loop_rel_functional D H1 H2) as [-> ->]. repeat split.
Qed.

End Facts.

End RoundFacts.

(** * The accumulated dataset *)

Module TrainerFacts.

Import Notebook.

Section Facts.

Variables Exn Rest Row Simulator Dist Inference Estimator Posterior : Type.
Variable X : Trainer.Externals Exn Rest Row Simulator Dist Inference Estimator Posterior.
Variable simulator : Simulator.
Variable prior : Dist.
Variable inference : Inference.
Variable x_o : Trainer.Tensor Row.

Local Abbreviation World := (Trainer.World Rest Row Dist).
Local Abbreviation State :=
  (State Exn World (Trainer.Tensor Row) Simulator Dist Inference Estimator Posterior).
Local Abbreviation TL := (Trainer.library X).
Local Abbreviation step := (round_rel simulator inference x_o (graph TL)).
Local Abbreviation steps := (loop_rel simulator inference x_o (graph TL)).
Local Abbreviation run := (run_cell TL simulator prior inference x_o).

Lemma lift_keeps {A} (op : Rest -> Result Exn A * Rest) (w : World)
      (r : Result Exn A) (w' : World) :
  Trainer.lift op w = (r, w') ->
  Trainer.dataset w' = Trainer.dataset w /\ Trainer.trained_on w' = Trainer.trained_on w.
Proof.
  unfold Trainer.lift. destruct (op (Trainer.rest w)) as [r0 s].
  intros [= _ <-]. split; reflexivity.
Qed.

(** A round that goes through adds one record and one training run. *)
Lemma round_ok_dataset (st st' : State) :
  step st (Ok tt) st' ->
  exists rec : Trainer.RoundRecord Row Dist,
    simulated (log st') = simulated (log st) ++ [rec] /\
    Trainer.dataset (world st') = Trainer.dataset (world st) ++ [rec] /\
    Trainer.trained_on (world st')
      = Trainer.trained_on (world st) ++ [Trainer.dataset (world st) ++ [rec]].
Proof.
  intros Hstep.
  inversion Hstep as [ | | | | | [th xs] w1 inf' w2 de w3 post w4 next w5 Hsim Happ Htrain Hbuild Hcond];
    subst.
  cbn in Hsim, Happ, Htrain, Hbuild, Hcond.
  apply lift_keeps in Hsim, Hbuild, Hcond.
  destruct Hsim as [Hd1 Ht1], Hbuild as [Hd4 Ht4], Hcond as [Hd5 Ht5].
  unfold Trainer.add_data in Happ. injection Happ as _ <-.
  unfold Trainer.train in Htrain. cbn [Trainer.dataset Trainer.trained_on Trainer.rest] in Htrain.
  destruct (Trainer.ext_fit X (Trainer.dataset w1 ++ [(th, xs, proposal st)]) (Trainer.rest w1))
    as [r s].
  injection Htrain as _ <-.
  cbn [Trainer.dataset Trainer.trained_on] in Hd4, Ht4.
  exists (th, xs, proposal st). cbn [world log].
  rewrite RoundFacts.simulated_app. cbn [simulated app].
  rewrite Hd5, Hd4, Ht5, Ht4, Hd1, Ht1. repeat split.
Qed.

Lemma loop_ok_dataset (n : nat) :
  forall st st' : State,
    steps n st (Ok tt) st' ->
    exists recs : list (Trainer.RoundRecord Row Dist),
      length recs = n /\
      simulated (log st') = simulated (log st) ++ recs /\
      Trainer.dataset (world st') = Trainer.dataset (world st) ++ recs /\
      Trainer.trained_on (world st')
        = Trainer.trained_on (world st)
          ++ map (fun j => Trainer.dataset (world st) ++ firstn j recs) (seq 1 n).
Proof.
  induction n as [| n IH]; intros st st' Hl; inversion Hl; subst.
  - exists []. cbn. rewrite !app_nil_r. repeat split.
  - match goal with H : step st (Ok tt) _ |- _ =>
      destruct (round_ok_dataset H) as (rec & Hs1 & Hd1 & Ht1) end.
    match goal with H : steps n _ (Ok tt) st' |- _ =>
      destruct (IH _ _ H) as (recs & Hlen & Hs & Hd & Ht) end.
    exists (rec :: recs). split; [cbn; lia |].
    rewrite Hs, Hd, Ht, Hs1, Hd1, Ht1, <- !app_assoc. cbn [app].
    repeat split.
    do 2 f_equal. cbn [seq map firstn]. f_equal.
    rewrite <- (seq_shift n 1), map_map.
    apply map_ext. intros j. now rewrite <- app_assoc.
Qed.

Lemma dataset_size_app (ds recs : list (Trainer.RoundRecord Row Dist)) :
  Trainer.dataset_size (ds ++ recs)
  = (Trainer.dataset_size ds + list_sum (Trainer.batch_sizes recs))%nat.
Proof.
  unfold Trainer.dataset_size, Trainer.all_theta, Trainer.batch_sizes.
  rewrite map_app, concat_app, length_app. f_equal.
  now rewrite length_concat, map_map.
Qed.

(** C3.  Take a run of the cell that does not raise, and [k] not larger
    than its number of rounds.  The dataset held by the inference object
    after round [k] is the initial dataset followed by the records
    (parameters, observations, proposal) of rounds 1 to [k], in order:
    nothing was dropped.  Its size is the initial size plus the sum of
    the batch sizes of these rounds.  The [train] call of round [k] was
    run on exactly this dataset, and there was one [train] call per
    round. *)
Theorem accumulated_dataset (R : Z) (w : World) (k : nat) :
  fst (run R w) = Ok tt ->
  (k <= range_len R)%nat ->
  let stR := snd (run R w) in
  let stk := snd (run (Z.of_nat k) w) in
  let rounds := firstn k (simulated (log stR)) in
  fst (run (Z.of_nat k) w) = Ok tt /\
  length rounds = k /\
  Trainer.dataset (world stk) = Trainer.dataset w ++ rounds /\
  Trainer.dataset_size (Trainer.dataset (world stk))
    = (Trainer.dataset_size (Trainer.dataset w) + list_sum (Trainer.batch_sizes rounds))%nat /\
  length (Trainer.trained_on (world stR))
    = (length (Trainer.trained_on w) + range_len R)%nat /\
  ((1 <= k)%nat ->
     nth_error (Trainer.trained_on (world stR)) (length (Trainer.trained_on w) + (k - 1))
     = Some (Trainer.dataset (world stk))).
Proof.
  intros Hok Hk stR stk rounds.
  pose proof (RoundFacts.run_steps TL simulator prior inference x_o R w) as HR.
  rewrite Hok in HR. fold stR in HR.
  destruct (RoundFacts.loop_ok_prefix Hk HR) as (s & Hpre & Hpost).
  assert (Hrunk : run (Z.of_nat k) w = (Ok tt, s)).
  { unfold run_cell, round_loop, range_len. rewrite Nat2Z.id.
    now apply RoundFacts.steps_for_range. }
  subst stk. rewrite Hrunk. cbn [fst snd].
  destruct (loop_ok_dataset Hpre) as (recs & Hlen & Hs & Hd & _).
  destruct (loop_ok_dataset Hpost) as (recs' & _ & Hs' & _).
  destruct (loop_ok_dataset HR) as (recsR & HlenR & HsR & _ & HtR).
  cbn [init log world simulated app] in Hs, Hd, HsR, HtR.
  assert (Hrounds : rounds = recs).
  { subst rounds. rewrite Hs', Hs, <- Hlen, firstn_app, Nat.sub_diag, firstn_all.
    cbn [firstn]. now rewrite app_nil_r. }
  rewrite Hrounds, Hd.
  split; [reflexivity | split; [exact Hlen | split; [reflexivity | split; [| split]]]].
  - apply dataset_size_app.
  - rewrite HtR, length_app, length_map, length_seq. reflexivity.
  - intros H1. rewrite HtR, nth_error_app2 by lia.
    replace (length (Trainer.trained_on w) + (k - 1) - length (Trainer.trained_on w))%nat
      with (k - 1)%nat by lia.
    rewrite nth_error_map, nth_error_seq.
    destruct (Nat.ltb_spec (k - 1) (range_len R)) as [_ | Hge]; [| lia].
    cbn [option_map]. replace (1 + (k - 1))%nat with k by lia.
    now rewrite <- HsR, <- Hrounds.
Qed.

End Facts.

End TrainerFacts.

(** * The linear Gaussian simulator *)

Module LinearGaussianFacts.

Import LinearGaussian.

Section Facts.

Variables F Gen : Type.
Variables fadd fmul : F -> F -> F.
Variables one tenth : F.
Variable randn_like : list F -> Gen -> list F * Gen.

Lemma add_tensor_same_size (a b : list F) :
  length a = length b ->
  add_tensor fadd a b = Some (map (fun uv => fadd (fst uv) (snd uv)) (combine a b)).
Proof.
  revert b. induction a as [| u a IH]; intros [| v b] Hlen; try discriminate Hlen.
  - reflexivity.
  - cbn in Hlen |- *. rewrite (IH b) by congruence. reflexivity.
Qed.

Lemma combine_map_both {A B C D} (f : A -> C) (h : B -> D) (a : list A) (b : list B) :
  combine (map f a) (map h b) = map (fun ab => (f (fst ab), h (snd ab))) (combine a b).
Proof.
  revert b. induction a as [| u a IH]; intros [| v b]; cbn; try reflexivity.
  now rewrite IH.
Qed.

(** The shape of the result, for any number type: for every noise tensor
    [eps] of the shape of [theta], the result has as many entries as
    [theta], entry [i] being [(theta_i + one) + tenth * eps_i] in the
    arithmetic given.  Multiplication is taken to be commutative
    ([eps * tenth] is written [tenth * eps]). *)
Theorem linear_gaussian_formula (theta eps : list F) (g g' : Gen) :
  (forall a b : F, fmul a b = fmul b a) ->
  randn_like theta g = (eps, g') ->
  length eps = length theta ->
  linear_gaussian fadd fmul one tenth randn_like theta g
    = (Some (observation fadd fmul one tenth theta eps), g') /\
  length (observation fadd fmul one tenth theta eps) = length theta /\
  forall (i : nat) (d : F),
    (i < length theta)%nat ->
    nth i (observation fadd fmul one tenth theta eps) d
    = fadd (fadd (nth i theta d) one) (fmul tenth (nth i eps d)).
Proof.
  intros Hcomm Hrand Hlen.
  assert (Hobs : length (observation fadd fmul one tenth theta eps) = length theta).
  { unfold observation. rewrite length_map, length_combine. lia. }
  split; [| split; [exact Hobs |]].
  - unfold linear_gaussian. rewrite Hrand. f_equal.
    unfold add_scalar, mul_scalar, observation.
    rewrite add_tensor_same_size by (rewrite !length_map; congruence).
    rewrite combine_map_both, map_map. f_equal.
    apply map_ext. intros [t e]; cbn. now rewrite (Hcomm e tenth).
  - intros i d Hi.
    unfold observation.
    rewrite (nth_indep _ d (fadd (fadd (fst (d, d)) one) (fmul tenth (snd (d, d)))))
      by (fold (observation fadd fmul one tenth theta eps); lia).
    rewrite (map_nth (fun te => fadd (fadd (fst te) one) (fmul tenth (snd te)))).
    rewrite combine_nth by congruence. reflexivity.
Qed.

End Facts.

End LinearGaussianFacts.

(** * The statements above on the executable library *)

Module Checks.

Import Notebook.

Local Abbreviation L0 := (Toy.lib None).
Local Abbreviation L7 := (Toy.lib (Some 7%nat)).
Local Abbreviation run0 := (run_cell L0 tt Toy.prior Toy.inference Toy.x_o).
Local Abbreviation run7 := (run_cell L7 tt Toy.prior Toy.inference Toy.x_o).
Local Abbreviation body7 := (round_body L7 tt Toy.inference Toy.x_o).
Local Abbreviation run_trainer :=
  (run_cell (Trainer.library (Toy.externals None)) tt Toy.prior Toy.inference Toy.x_o).

(** C1 on a run of two rounds: the second round simulates from what
    [set_default_x] returned for the first posterior. *)
Lemma proposal_chain_witness :
  fst (run0 2 0%nat) = Ok tt /\
  nth_error (proposals_used (log (snd (run0 2 0%nat)))) 1 = Some 91%nat /\
  rounds_started (log (snd (run0 2 0%nat))) = 2%nat /\
  exists (de post : nat),
    nth_error (built (log (snd (run0 2 0%nat)))) 0 = Some (Toy.inference, de, post) /\
    nth_error (conditioned (log (snd (run0 2 0%nat)))) 0 = Some (post, Toy.x_o, 91%nat).
Proof.
  assert (Hok : fst (run0 2 0%nat) = Ok tt) by (vm_compute; reflexivity).
  assert (Hk : nth_error (proposals_used (log (snd (run0 2 0%nat)))) 1 = Some 91%nat)
    by (vm_compute; reflexivity).
  split; [exact Hok | split; [exact Hk |]].
  destruct (RoundFacts.proposal_chain L0 tt Toy.prior Toy.inference Toy.x_o 2 0%nat) as [H1 H2].
  split.
  - exact (H1 Hok).
  - exact (H2 1%nat 91%nat Hk).
Defined.

(** C2 on a run of two rounds. *)
Lemma posteriors_in_round_order_witness :
  (1 <= 2)%Z /\
  fst (run0 2 0%nat) = Ok tt /\
  Z.of_nat (length (posteriors (snd (run0 2 0%nat)))) = 2%Z.
Proof.
  assert (HR : (1 <= 2)%Z) by lia.
  assert (Hok : fst (run0 2 0%nat) = Ok tt) by (vm_compute; reflexivity).
  split; [exact HR | split; [exact Hok |]].
  exact (proj1 (RoundFacts.posteriors_in_round_order L0 tt Toy.prior Toy.inference Toy.x_o
                  (R := 2) 0%nat HR Hok)).
Defined.

(** C3 on two rounds: after the first round the dataset is the first
    round's record. *)
Lemma accumulated_dataset_witness :
  fst (run_trainer 2 Toy.fresh) = Ok tt /\
  (1 <= range_len 2)%nat /\
  Trainer.dataset (world (snd (run_trainer 1 Toy.fresh)))
  = firstn 1 (simulated (log (snd (run_trainer 2 Toy.fresh)))).
Proof.
  assert (Hok : fst (run_trainer 2 Toy.fresh) = Ok tt) by (vm_compute; reflexivity).
  assert (Hk : (1 <= range_len 2)%nat) by (vm_compute; lia).
  split; [exact Hok | split; [exact Hk |]].
  destruct (TrainerFacts.accumulated_dataset (Toy.externals None) tt Toy.prior Toy.inference
              Toy.x_o 2 Toy.fresh Hok Hk) as (_ & _ & H & _).
  exact H.
Defined.

(** C4 on the executable library, which is deterministic. *)
Lemma runs_agree_witness :
  deterministic_library (graph L0) /\
  cell_rel tt Toy.prior Toy.inference Toy.x_o (graph L0) 2 0%nat
           (fst (run0 2 0%nat)) (snd (run0 2 0%nat)) /\
  fst (run0 2 0%nat) = fst (run0 2 0%nat).
Proof.
  pose proof (RoundFacts.graph_deterministic L0) as D.
  pose proof (RoundFacts.run_steps L0 tt Toy.prior Toy.inference Toy.x_o 2 0%nat) as H.
  split; [exact D | split; [exact H |]].
  exact (proj1 (RoundFacts.runs_agree D H H)).
Defined.

(** Without that hypothesis two runs on the same inputs can differ. *)
Lemma undetermined_runs_differ :
  exists (st1 st2 : State Toy.Exn Toy.World Toy.Tensor unit nat nat nat nat),
    cell_rel tt Toy.prior Toy.inference Toy.x_o Toy.coin 1 0%nat (Ok tt) st1 /\
    cell_rel tt Toy.prior Toy.inference Toy.x_o Toy.coin 1 0%nat (Ok tt) st2 /\
    log st1 <> log st2.
Proof.
  eexists; eexists. split; [| split].
  - unfold cell_rel. change (range_len 1) with 1%nat.
    eapply LoopNext; [| apply LoopDone].
    eapply RoundCompletes with (sims := ([0], [0])%Z); cbn;
      first [ split; [reflexivity | left; reflexivity] | reflexivity ].
  - unfold cell_rel. change (range_len 1) with 1%nat.
    eapply LoopNext; [| apply LoopDone].
    eapply RoundCompletes with (sims := ([1], [1])%Z); cbn;
      first [ split; [reflexivity | right; reflexivity] | reflexivity ].
  - cbn. discriminate.
Qed.

(** C5 on the executable library. *)
Lemma one_round_is_single_round_witness :
  fst (run0 1 0%nat) = Ok tt /\
  proposals_used (log (snd (run0 1 0%nat))) = [Toy.prior] /\
  exists (post : nat), posteriors (snd (run0 1 0%nat)) = [post].
Proof.
  assert (Hrun : fst (run0 1 0%nat) = Ok tt) by (vm_compute; reflexivity).
  split; [exact Hrun |].
  destruct (RoundFacts.one_round_is_single_round L0 tt Toy.prior Toy.inference Toy.x_o 0%nat)
    as (_ & Hused & _ & Hok).
  split; [exact Hused |].
  destruct (Hok Hrun) as (de & post & next & st1 & _ & _ & _ & _ & _ & Hp & _).
  exists post. exact Hp.
Defined.

Lemma toy_never_raises : never_raises L0.
Proof.
  unfold never_raises. repeat split.
Qed.

(** C6 on the executable library: two rounds asked, two rounds run. *)
Lemma loop_runs_num_rounds_iterations_witness :
  never_raises L0 /\
  fst (run0 2 0%nat) = Ok tt /\
  (0 <= 2)%Z /\
  Z.of_nat (rounds_started (log (snd (run0 2 0%nat)))) = 2%Z.
Proof.
  destruct (RoundFacts.loop_runs_num_rounds_iterations L0 tt Toy.prior Toy.inference Toy.x_o
              2 0%nat) as (_ & Hok & Hnever).
  split; [exact toy_never_raises | split; [exact (Hnever toy_never_raises) |]].
  split; [lia |].
  destruct (Hok (Hnever toy_never_raises)) as (_ & _ & _ & HZ).
  apply HZ. lia.
Defined.

Lemma Qmult_comm_eq (a b : Q) : Qmult a b = Qmult b a.
Proof.
  destruct a as [an ad], b as [bn bd]. unfold Qmult; cbn.
  now rewrite Z.mul_comm, Pos.mul_comm.
Qed.

(** The generic formula on rational numbers: theta = (0, 1, 2) and noise
    (1, -1, 3). *)
Lemma linear_gaussian_formula_witness :
  (forall a b : Q, Qmult a b = Qmult b a) /\
  Toy.randn_like [0; 1; 2]%Q [1; -1; 3]%Q = ([1; -1; 3]%Q, []) /\
  length [1; -1; 3]%Q = length [0; 1; 2]%Q /\
  Toy.linear_gaussian [0; 1; 2]%Q [1; -1; 3]%Q
  = (Some (LinearGaussian.observation Qplus Qmult 1%Q (1 # 10)%Q [0; 1; 2]%Q [1; -1; 3]%Q), []).
Proof.
  split; [exact Qmult_comm_eq | split; [reflexivity | split; [reflexivity |]]].
  exact (proj1 (LinearGaussianFacts.linear_gaussian_formula
                  Qplus Qmult 1%Q (1 # 10)%Q Toy.randn_like [0; 1; 2]%Q [1; -1; 3]%Q
                  Qmult_comm_eq eq_refl eq_refl)).
Defined.

(** C8 on the executable library: the third call of round 2 ([train])
    raises; the run ends with that exception and with the one posterior
    of round 1. *)
Lemma exception_propagates_witness :
  (1 < range_len 2)%nat /\
  for_range 1 (body7) (init Toy.prior 0%nat)
  = (Ok tt, snd (run7 1 0%nat)) /\
  fst (body7 (snd (run7 1 0%nat)))
  = Raise 7%nat /\
  fst (run7 2 0%nat) = Raise 7%nat /\
  length (posteriors (snd (run7 1 0%nat))) = 1%nat.
Proof.
  assert (Hk : (1 < range_len 2)%nat) by (vm_compute; lia).
  assert (Hpre : for_range 1 body7 (init Toy.prior 0%nat) = (Ok tt, snd (run7 1 0%nat)))
    by (vm_compute; reflexivity).
  assert (Hfail : body7 (snd (run7 1 0%nat)) = (Raise 7%nat, snd (body7 (snd (run7 1 0%nat)))))
    by (vm_compute; reflexivity).
  split; [exact Hk | split; [exact Hpre | split; [exact (f_equal fst Hfail) |]]].
  destruct (RoundFacts.exception_propagates L7 tt Toy.prior Toy.inference Toy.x_o
              2 0%nat Hk Hpre Hfail) as (Hrun & Hlen & _).
  split; [| exact Hlen].
  exact (f_equal fst Hrun).
Defined.

(** C10 on a run of two rounds: the call at position 6 of the log is the
    [append_simulations] call of round 2; the call before it is the
    [simulate_for_sbi] call on the same proposal. *)
Lemma tag_is_generating_proposal_witness :
  nth_error (log (snd (run0 2 0%nat))) 6
  = Some (EvAppend Toy.inference [91; 500]%Z [92; 500]%Z 91%nat (Ok Toy.inference)) /\
  exists (j : nat) (sim : unit) (n : Z),
    6%nat = S j /\
    nth_error (log (snd (run0 2 0%nat))) j
    = Some (EvSimulate sim 91%nat n (Ok ([91; 500]%Z, [92; 500]%Z))).
Proof.
  assert (E : nth_error (log (snd (run0 2 0%nat))) 6
              = Some (EvAppend Toy.inference [91; 500]%Z [92; 500]%Z 91%nat (Ok Toy.inference)))
    by (vm_compute; reflexivity).
  split; [exact E |].
  destruct (RoundFacts.tag_is_generating_proposal L0 tt Toy.prior Toy.inference Toy.x_o 2 0%nat)
    as [_ H].
  exact (H _ _ _ _ _ _ E).
Defined.

End Checks.

(** * More on the cell and its neighbours *)

Module CellFacts.

Import Notebook Cells.

Section Facts.

Variables Exn World Tensor Simulator Dist Inference Estimator Posterior : Type.

Local Abbreviation Event := (Event Exn Tensor Simulator Dist Inference Estimator Posterior).
Local Abbreviation State := (State Exn World Tensor Simulator Dist Inference Estimator Posterior).

Variable L : Library Exn World Tensor Simulator Dist Inference Estimator Posterior.
Variable simulator : Simulator.
Variable prior : Dist.
Variable inference : Inference.
Variable x_o : Tensor.

Local Abbreviation body := (round_body L simulator inference x_o).
Local Abbreviation step := (round_rel simulator inference x_o (graph L)).
Local Abbreviation steps := (loop_rel simulator inference x_o (graph L)).
Local Abbreviation run := (run_cell L simulator prior inference x_o).
Local Abbreviation run_from := (run_cell_from L simulator prior inference x_o).

Ltac round_cases H :=
  inversion H as [ ? ? _ | [? ?] ? ? ? _ _ | [? ?] ? ? ? ? ? _ _ _
                 | [? ?] ? ? ? ? ? ? ? _ _ _ _ | [? ?] ? ? ? ? ? ? ? ? ? _ _ _ _ _
                 | [? ?] ? ? ? ? ? ? ? ? ? _ _ _ _ _ ];
  subst; cbn [world log posteriors proposal posterior fst snd].

Lemma run_from_steps (num_rounds : Z) (st0 : State) :
  steps (range_len num_rounds) (cell_start prior st0)
        (fst (run_from num_rounds st0)) (snd (run_from num_rounds st0)).
Proof. apply RoundFacts.for_range_steps. Qed.

(** ** No rounds *)

(** X1.  A round count that is zero or negative makes the cell a no-op
    after its two assignments: no library call, no exception, an empty
    list of posteriors, the prior as proposal, the library state as it
    was. *)
Theorem no_rounds_no_calls (num_rounds : Z) (w : World) (st0 : State) :
  (num_rounds <= 0)%Z ->
  run num_rounds w = (Ok tt, init prior w) /\
  run_from num_rounds st0 = (Ok tt, cell_start prior st0).
Proof.
  intros H. unfold run_cell, run_cell_from, round_loop, range_len.
  replace (Z.to_nat num_rounds) with 0%nat by lia.
  split; reflexivity.
Qed.

(** ** The variables after the loop *)

Lemma round_keeps_last (p0 : option Posterior) (st : State) (r : Result Exn unit) (st' : State) :
  posterior st = last (map Some (posteriors st)) p0 ->
  step st r st' ->
  posterior st' = last (map Some (posteriors st')) p0.
Proof.
  intros HI Hs. round_cases Hs; try exact HI;
    rewrite map_app; cbn [map]; now rewrite last_last.
Qed.

(** X3.  Whenever the cell ends, by exception or not, the variable
    [posterior] is bound to the last entry of [posteriors]; if no
    posterior was built it still has the binding it had before the
    cell, if any. *)
Theorem posterior_is_last_of_posteriors (num_rounds : Z) (st0 : State) :
  let st := snd (run_from num_rounds st0) in
  posterior st = last (map Some (posteriors st)) (posterior st0).
Proof.
  intros st.
  pose proof (run_from_steps num_rounds st0) as Hrun.
  eapply (RoundFacts.loop_inv
            (fun s => posterior s = last (map Some (posteriors s)) (posterior st0)));
    [| exact Hrun |].
  - intros s r s' HI Hs. eapply round_keeps_last; eassumption.
  - reflexivity.
Qed.

Lemma build_calls_app (l l' : list Event) :
  build_calls (l ++ l') = build_calls l ++ build_calls l'.
Proof.
  induction l as [| [] l IH]; cbn; rewrite ?IH; reflexivity.
Qed.

(** X2.  In every run, raising or not, [posteriors] is the list of what
    [build_posterior] returned, in call order, and every
    [build_posterior] call, whether it returned or raised, was made on
    [inference]. *)
Theorem posteriors_are_the_built (num_rounds : Z) (w : World) :
  let st := snd (run num_rounds w) in
  posteriors st = map snd (built (log st)) /\
  Forall (fun b => fst (fst b) = inference) (built (log st)) /\
  Forall (fun inf => inf = inference) (build_calls (log st)).
Proof.
  intros st.
  destruct (RoundFacts.run_shape L simulator prior inference x_o num_rounds w)
    as (_ & Hbuilt & _).
  fold st in Hbuilt. split; [| split].
  - apply (f_equal (map snd)) in Hbuilt. rewrite !map_map in Hbuilt.
    cbn [snd] in Hbuilt. rewrite map_id in Hbuilt. symmetry.
    erewrite map_ext; [exact Hbuilt | reflexivity].
  - apply (f_equal (map fst)) in Hbuilt. rewrite !map_map in Hbuilt.
    cbn [fst] in Hbuilt.
    revert Hbuilt. generalize (posteriors st).
    induction (built (log st)) as [| b l IH]; intros [| q ps] Hb;
      try discriminate Hb; constructor.
    + now injection Hb.
    + injection Hb as _ Hb. eapply IH; eassumption.
  - pose proof (RoundFacts.run_steps L simulator prior inference x_o num_rounds w) as Hrun.
    eapply (RoundFacts.loop_inv
              (fun s => Forall (fun inf => inf = inference) (build_calls (log s))));
      [| exact Hrun | constructor].
    intros s r s' HI Hs. round_cases Hs;
      rewrite build_calls_app; apply Forall_app; (split; [exact HI |]);
      cbn; repeat constructor.
Qed.

(** ** Outcome and size of the call log *)

(** X4.  The outcome of the cell can be read off its call log.  If the
    cell ends normally, no logged call raised.  If it ends with exception
    [e], the last logged call raised [e] and no earlier call raised: the
    cell raises nothing of its own and swallows nothing. *)
Theorem outcome_is_in_the_log (num_rounds : Z) (w : World) :
  let st := snd (run num_rounds w) in
  match fst (run num_rounds w) with
  | Ok _ => Forall (fun ev => ev_raised ev = None) (log st)
  | Raise e =>
      exists (pre : list Event) (ev : Event),
        log st = pre ++ [ev] /\
        Forall (fun ev' => ev_raised ev' = None) pre /\
        ev_raised ev = Some e
  end.
Proof.
  intros st. subst st.
  destruct (fst (run num_rounds w)) as [[] | e] eqn:Hr.
  - now destruct (RoundFacts.run_ok_boundary _ _ _ _ _ _ _ Hr) as (_ & Hok & _).
  - destruct (RoundFacts.run_raise_split _ _ _ _ _ _ _ Hr)
      as (k & stk & _ & (_ & Hok & _) & _ & Hstep).
    remember (snd (run num_rounds w)) as st' eqn:Est'. clear Est'.
    inversion Hstep; subst; cbn [log];
      match goal with
      | |- exists pre ev, log stk ++ ?l = _ /\ _ =>
          exists (log stk ++ removelast l), (last l (EvTrain inference (Raise e)))
      end;
      cbn [removelast last];
      (split; [rewrite <- app_assoc; reflexivity |]);
      (split; [apply Forall_app; split; [exact Hok | repeat constructor] | reflexivity]).
Qed.

(** X5.  A cell of [num_rounds] rounds makes at most [5 * num_rounds]
    library calls (none if [num_rounds] is negative), whatever the library
    returns or raises. *)
Theorem at_most_five_calls_per_round (num_rounds : Z) (w : World) :
  (length (log (snd (run num_rounds w))) <= 5 * range_len num_rounds)%nat.
Proof.
  destruct (fst (run num_rounds w)) as [[] | e] eqn:Hr.
  - destruct (RoundFacts.run_ok_boundary _ _ _ _ _ _ _ Hr) as (Hlen & _). lia.
  - destruct (RoundFacts.run_raise_split _ _ _ _ _ _ _ Hr)
      as (k & stk & Hk & (Hlen & _) & _ & Hstep).
    remember (snd (run num_rounds w)) as st' eqn:Est'. clear Est'.
    inversion Hstep; subst; cbn [log]; rewrite length_app; cbn [length]; lia.
Qed.

(** ** The simulation budget *)

Lemma simulate_requests_app (l l' : list Event) :
  simulate_requests (l ++ l') = simulate_requests l ++ simulate_requests l'.
Proof.
  induction l as [| [] l IH]; cbn; rewrite ?IH; reflexivity.
Qed.

Lemma simulate_requests_length (l : list Event) :
  length (simulate_requests l) = rounds_started l.
Proof.
  unfold rounds_started. induction l as [| [] l IH]; cbn; rewrite ?IH; reflexivity.
Qed.

Lemma constant_budget_sum (l : list (Simulator * Z)) (s : Simulator) (n : Z) :
  Forall (fun sn => sn = (s, n)) l ->
  fold_right Z.add 0%Z (map snd l) = (n * Z.of_nat (length l))%Z.
Proof.
  induction 1 as [| sn l Hsn _ IH]; cbn [map fold_right length].
  - lia.
  - subst sn. cbn [snd]. rewrite IH. lia.
Qed.

(** X6.  Every [simulate_for_sbi] call of the cell is made with the one
    simulator and asks for 500 simulations, so the cell asks for 500
    simulations per round begun; a cell of [num_rounds >= 0] rounds that
    ends normally has asked for [500 * num_rounds] simulations. *)
Theorem simulation_budget (num_rounds : Z) (w : World) :
  let st := snd (run num_rounds w) in
  Forall (fun sn => sn = (simulator, 500%Z)) (simulate_requests (log st)) /\
  simulations_requested (log st) = (500 * Z.of_nat (rounds_started (log st)))%Z /\
  (fst (run num_rounds w) = Ok tt -> (0 <= num_rounds)%Z ->
   simulations_requested (log st) = (500 * num_rounds)%Z).
Proof.
  intros st.
  assert (Hall : Forall (fun sn => sn = (simulator, 500%Z)) (simulate_requests (log st))).
  { pose proof (RoundFacts.run_steps L simulator prior inference x_o num_rounds w) as Hrun.
    eapply (RoundFacts.loop_inv
              (fun s => Forall (fun sn => sn = (simulator, 500%Z))
                               (simulate_requests (log s))));
      [| exact Hrun | constructor].
    intros s r s' HI Hs. round_cases Hs;
      rewrite simulate_requests_app; apply Forall_app; (split; [exact HI |]);
      cbn; repeat constructor. }
  assert (Hsum : simulations_requested (log st)
                 = (500 * Z.of_nat (rounds_started (log st)))%Z).
  { unfold simulations_requested.
    rewrite (constant_budget_sum Hall), simulate_requests_length. reflexivity. }
  split; [exact Hall | split; [exact Hsum |]].
  intros Hok Hpos. rewrite Hsum.
  pose proof (RoundFacts.run_ok_boundary _ _ _ _ _ _ _ Hok) as Hb. fold st in Hb.
  rewrite (RoundFacts.boundary_rounds_started Hb). unfold range_len. lia.
Qed.

(** ** More rounds *)

Lemma for_range_add (n m : nat) (st : State) :
  for_range (n + m) body st
  = match for_range n body st with
    | (Ok _, st') => for_range m body st'
    | (Raise e, st') => (Raise e, st')
    end.
Proof.
  revert st. induction n as [| n IH]; intros st; cbn [Nat.add for_range].
  - reflexivity.
  - unfold bind. destruct (body st) as [[[] | e] st1]; [apply IH | reflexivity].
Qed.

Lemma loop_extends (m : nat) (st : State) :
  exists (more : list Event) (ps : list Posterior),
    log (snd (for_range m body st)) = log st ++ more /\
    posteriors (snd (for_range m body st)) = posteriors st ++ ps.
Proof.
  pose proof (RoundFacts.for_range_steps L simulator inference x_o m st) as Hrun.
  eapply (RoundFacts.loop_inv
            (fun s => exists more ps,
                 log s = log st ++ more /\ posteriors s = posteriors st ++ ps));
    [| exact Hrun |].
  - intros s r s' (more & ps & Hl & Hp) Hs.
    round_cases Hs; rewrite Hl, <- app_assoc;
      first [ rewrite Hp, <- app_assoc; eexists _, _; split; reflexivity
            | exists (more ++ [EvSimulate simulator (proposal s) num_simulations (Raise e)]), ps;
              split; [reflexivity | exact Hp]
            | eexists _, ps; split; [reflexivity | exact Hp] ].
  - exists [], []. now rewrite !app_nil_r.
Qed.

(** X7.  Asking for more rounds only adds to what fewer rounds do, from
    the same library state: the calls and the posteriors of the shorter
    cell are a prefix of those of the longer one; and if the shorter cell
    raised, the longer one ends in the very same way. *)
Theorem more_rounds_extend (R R' : Z) (w : World) :
  (R <= R')%Z ->
  (exists (more : list Event) (ps : list Posterior),
      log (snd (run R' w)) = log (snd (run R w)) ++ more /\
      posteriors (snd (run R' w)) = posteriors (snd (run R w)) ++ ps) /\
  (forall e : Exn, fst (run R w) = Raise e -> run R' w = run R w).
Proof.
  intros HR.
  assert (Hsplit : run R' w
                   = match run R w with
                     | (Ok _, st') => for_range (range_len R' - range_len R) body st'
                     | (Raise e, st') => (Raise e, st')
                     end).
  { unfold run_cell, round_loop.
    replace (range_len R') with (range_len R + (range_len R' - range_len R))%nat
      by (unfold range_len; lia).
    rewrite for_range_add.
    replace (range_len R + (range_len R' - range_len R) - range_len R)%nat
      with (range_len R' - range_len R)%nat by lia.
    reflexivity. }
  rewrite Hsplit. destruct (run R w) as [[[] | e] st]; cbn [fst snd].
  - split; [apply loop_extends | discriminate].
  - split; [| reflexivity]. exists [], []. now rewrite !app_nil_r.
Qed.

(** ** The sampling cell *)

(** X8.  After a cell of [num_rounds >= 1] rounds that ended normally, the
    sampling cell calls [sample] on the posterior that the last
    [build_posterior] call returned, with shape [(10000,)] and [x = x_o]:
    its result is the result of that call, and the name [posterior] is
    bound. *)
Theorem sample_cell_uses_last_posterior
        (lib_sample : Posterior -> list Z -> Tensor -> World -> Result Exn Tensor * World)
        (name_error : Exn) (num_rounds : Z) (w : World) :
  (1 <= num_rounds)%Z ->
  fst (run num_rounds w) = Ok tt ->
  let st := snd (run num_rounds w) in
  exists (de : Estimator) (post : Posterior),
    nth_error (built (log st)) (range_len num_rounds - 1) = Some (inference, de, post) /\
    length (built (log st)) = range_len num_rounds /\
    posterior st = Some post /\
    fst (sample_cell x_o lib_sample name_error st)
    = fst (lib_sample post [10000%Z] x_o (world st)) /\
    world (snd (sample_cell x_o lib_sample name_error st))
    = snd (lib_sample post [10000%Z] x_o (world st)).
Proof.
  intros HR Hok st.
  destruct (RoundFacts.run_ok_boundary _ _ _ _ _ _ _ Hok)
    as (_ & _ & Hposts & Hbuilt & _ & _ & _ & _ & _ & _ & Hlast).
  fold st in Hposts, Hbuilt, Hlast.
  assert (Hne : posteriors st <> []).
  { intros E. rewrite E in Hposts. cbn in Hposts. unfold range_len in Hposts. lia. }
  destruct (exists_last Hne) as (ps & post & Eps).
  rewrite Eps, map_app in Hlast; cbn [map] in Hlast. rewrite last_last in Hlast.
  assert (Hp : nth_error (posteriors st) (range_len num_rounds - 1) = Some post).
  { rewrite Eps in Hposts |- *. rewrite length_app in Hposts; cbn [length] in Hposts.
    rewrite nth_error_app2 by lia.
    replace (range_len num_rounds - 1 - length ps)%nat with 0%nat by lia. reflexivity. }
  pose proof (map_nth_error (fun q => (inference, q)) _ _ Hp) as Hb.
  rewrite <- Hbuilt in Hb.
  apply RoundFacts.nth_error_map_inv in Hb.
  destruct Hb as ([[inf de] post'] & Hb & [= -> ->]).
  exists de, post. split; [exact Hb | split; [| split; [exact Hlast |]]].
  - apply (f_equal (@length _)) in Hbuilt. rewrite !length_map in Hbuilt. congruence.
  - unfold sample_cell, sample_shape. rewrite Hlast.
    destruct (lib_sample post [10000%Z] x_o (world st)) as [r w']. split; reflexivity.
Qed.

(** ** The order of the calls *)

Local Abbreviation follows' := (follows simulator inference x_o).
Local Abbreviation chain' := (chain simulator inference x_o).
Local Abbreviation protocol' := (protocol simulator prior inference x_o).

Lemma chain_extend (l : list Event) :
  forall (p a : Event) (l2 : list Event),
    chain' p (l ++ [a]) -> chain' a l2 -> chain' p (l ++ a :: l2).
Proof.
  induction l as [| b l IH]; intros p a l2 H1 H2; cbn in H1 |- *.
  - split; [apply H1 | exact H2].
  - split; [apply H1 | apply IH; [apply H1 | exact H2]].
Qed.

Lemma chain_prefix (l : list Event) :
  forall (p : Event) (l' : list Event), chain' p (l ++ l') -> chain' p l.
Proof.
  induction l as [| b l IH]; intros p l' H; cbn in H |- *.
  - exact I.
  - split; [apply H | eapply IH; apply H].
Qed.

Lemma protocol_extend (l : list Event) (a : Event) (l2 : list Event) :
  protocol' (l ++ [a]) -> chain' a l2 -> protocol' (l ++ a :: l2).
Proof.
  destruct l as [| b l]; cbn; intros [H1 H1'] H2.
  - split; assumption.
  - split; [assumption | now apply chain_extend].
Qed.

Lemma protocol_prefix (l l' : list Event) : protocol' (l ++ l') -> protocol' l.
Proof.
  destruct l as [| b l]; cbn; [trivial |].
  intros [H1 H2]. split; [assumption | eapply chain_prefix; eassumption].
Qed.

Ltac chain_holds :=
  cbn;
  repeat match goal with
    | |- _ /\ _ => split
    | |- exists _, _ => eexists
    | |- True => exact I
    | |- _ = _ => reflexivity
    end.

Lemma round_protocol (st : State) (r : Result Exn unit) (st' : State) :
  (forall r0, protocol' (log st ++ [EvSimulate simulator (proposal st) num_simulations r0])) ->
  step st r st' ->
  protocol' (log st') /\
  (r = Ok tt ->
   forall r0, protocol' (log st' ++ [EvSimulate simulator (proposal st') num_simulations r0])).
Proof.
  intros HI Hs. round_cases Hs;
    (split;
     [ apply protocol_extend; [apply HI | chain_holds]
     | try discriminate ]).
  intros _ r0. rewrite <- app_assoc. cbn [app].
  apply protocol_extend; [apply HI | chain_holds].
Qed.

Lemma loop_protocol (n : nat) :
  forall (st : State) (r : Result Exn unit) (st' : State),
    steps n st r st' ->
    (forall r0, protocol' (log st ++ [EvSimulate simulator (proposal st) num_simulations r0])) ->
    protocol' (log st').
Proof.
  induction n as [| n IH]; intros st r st' Hl HI; inversion Hl; subst.
  - eapply protocol_prefix. apply (HI (Ok (x_o, x_o))).
  - match goal with H : step st _ _ |- _ => now destruct (round_protocol HI H) end.
  - match goal with H : step st (Ok tt) _ |- _ =>
      destruct (round_protocol HI H) as [_ HI'] end.
    eapply IH; [eassumption | now apply HI'].
Qed.

(** X9.  The library calls of a cell come in one fixed order, each on what
    the call before it returned.  The first call is [simulate_for_sbi] on
    the prior.  After a [simulate_for_sbi] call comes [append_simulations]
    on [inference] with the batch it returned and the proposal it was given;
    then [train] on what [append_simulations] returned; then
    [build_posterior] on [inference] with the estimator [train] returned;
    then [set_default_x] with [x_o] on the posterior [build_posterior]
    returned; then [simulate_for_sbi] again, with the same simulator and
    500 simulations, on what [set_default_x] returned. *)
Theorem calls_follow_the_protocol (num_rounds : Z) (w : World) :
  protocol simulator prior inference x_o (log (snd (run num_rounds w))).
Proof.
  eapply loop_protocol.
  - apply RoundFacts.run_steps.
  - intros r0. cbn. split; [eexists; reflexivity | exact I].
Qed.

End Facts.

End CellFacts.

(** * The simulator of the first cell *)

Module LambdaFacts.

Import LinearGaussian.

Section Facts.

Variables F Gen : Type.
Variables fadd fmul : F -> F -> F.
Variables one tenth : F.
Variable randn_like : list F -> Gen -> list F * Gen.

(** The shape of the result of the first cell's simulator, for any number
    type: entry [i] is [theta_i + eps_i * tenth] in the arithmetic
    given. *)
Theorem simulator_lambda_formula (theta eps : list F) (g g' : Gen) :
  randn_like theta g = (eps, g') ->
  length eps = length theta ->
  exists out : list F,
    Cells.simulator_lambda fadd fmul tenth randn_like theta g = (Some out, g') /\
    length out = length theta /\
    forall (i : nat) (d : F),
      (i < length theta)%nat ->
      nth i out d = fadd (nth i theta d) (fmul (nth i eps d) tenth).
Proof.
  intros Hrand Hlen.
  exists (map (fun te => fadd (fst te) (fmul (snd te) tenth)) (combine theta eps)).
  assert (Hout : length (map (fun te => fadd (fst te) (fmul (snd te) tenth)) (combine theta eps))
                 = length theta).
  { rewrite length_map, length_combine. lia. }
  split; [| split; [exact Hout |]].
  - unfold Cells.simulator_lambda. rewrite Hrand. f_equal.
    unfold mul_scalar.
    rewrite LinearGaussianFacts.add_tensor_same_size by (rewrite length_map; congruence).
    f_equal. rewrite <- (map_id theta) at 1.
    rewrite LinearGaussianFacts.combine_map_both, map_map. reflexivity.
  - intros i d Hi.
    rewrite (nth_indep _ d (fadd (fst (d, d)) (fmul (snd (d, d)) tenth))) by lia.
    rewrite (map_nth (fun te => fadd (fst te) (fmul (snd te) tenth))).
    rewrite combine_nth by congruence. reflexivity.
Qed.

(** X11.  If the noise drawn by [randn_like] depends on the shape of its
    argument only, [linear_gaussian] is the first cell's simulator run on
    the shifted parameter [theta + 1.0], from the same generator state:
    same tensor, same generator state afterwards. *)
Theorem linear_gaussian_is_shifted_lambda (theta : list F) (g : Gen) :
  (forall (t t' : list F) (g0 : Gen), length t = length t' -> randn_like t g0 = randn_like t' g0) ->
  linear_gaussian fadd fmul one tenth randn_like theta g
  = Cells.simulator_lambda fadd fmul tenth randn_like (add_scalar fadd theta one) g.
Proof.
  intros Hshape. unfold linear_gaussian, Cells.simulator_lambda.
  rewrite (Hshape (add_scalar fadd theta one) theta g)
    by (unfold add_scalar; apply length_map).
  reflexivity.
Qed.

End Facts.

End LambdaFacts.

(** * The further statements on the executable library *)

Module MoreChecks.

Import Notebook Cells.

Local Abbreviation L0 := (Toy.lib None).
Local Abbreviation run0 := (run_cell L0 tt Toy.prior Toy.inference Toy.x_o).
Local Abbreviation run_from0 := (run_cell_from L0 tt Toy.prior Toy.inference Toy.x_o).

(** X1 with a negative round count, on the namespace left by a cell of
    two rounds. *)
Lemma no_rounds_no_calls_witness :
  (-3 <= 0)%Z /\
  run0 (-3) 0%nat = (Ok tt, init Toy.prior 0%nat) /\
  run_from0 (-3) (snd (run0 2 0%nat)) = (Ok tt, cell_start Toy.prior (snd (run0 2 0%nat))).
Proof.
  assert (H : (-3 <= 0)%Z) by lia.
  split; [exact H |].
  exact (CellFacts.no_rounds_no_calls L0 tt Toy.prior Toy.inference Toy.x_o
           0%nat (snd (run0 2 0%nat)) H).
Defined.

(** X6 on a cell of two rounds: 1000 simulations asked for. *)
Lemma simulation_budget_witness :
  fst (run0 2 0%nat) = Ok tt /\
  (0 <= 2)%Z /\
  simulations_requested (log (snd (run0 2 0%nat))) = (500 * 2)%Z.
Proof.
  assert (Hok : fst (run0 2 0%nat) = Ok tt) by (vm_compute; reflexivity).
  assert (Hpos : (0 <= 2)%Z) by lia.
  split; [exact Hok | split; [exact Hpos |]].
  destruct (CellFacts.simulation_budget L0 tt Toy.prior Toy.inference Toy.x_o 2 0%nat)
    as (_ & _ & H).
  exact (H Hok Hpos).
Defined.

(** X7 on one round against two, and on a cell whose second round
    raises against a cell of three rounds. *)
Lemma more_rounds_extend_witness :
  (1 <= 2)%Z /\
  (exists (more : list (Event Toy.Exn Toy.Tensor unit nat nat nat nat)) (ps : list nat),
      log (snd (run0 2 0%nat)) = log (snd (run0 1 0%nat)) ++ more /\
      posteriors (snd (run0 2 0%nat)) = posteriors (snd (run0 1 0%nat)) ++ ps) /\
  (2 <= 3)%Z /\
  fst (run_cell (Toy.lib (Some 7%nat)) tt Toy.prior Toy.inference Toy.x_o 2 0%nat) = Raise 7%nat /\
  run_cell (Toy.lib (Some 7%nat)) tt Toy.prior Toy.inference Toy.x_o 3 0%nat
  = run_cell (Toy.lib (Some 7%nat)) tt Toy.prior Toy.inference Toy.x_o 2 0%nat.
Proof.
  assert (H12 : (1 <= 2)%Z) by lia.
  assert (H23 : (2 <= 3)%Z) by lia.
  assert (Hr : fst (run_cell (Toy.lib (Some 7%nat)) tt Toy.prior Toy.inference Toy.x_o 2 0%nat)
               = Raise 7%nat) by (vm_compute; reflexivity).
  split; [exact H12 | split; [| split; [exact H23 | split; [exact Hr |]]]].
  - exact (proj1 (CellFacts.more_rounds_extend L0 tt Toy.prior Toy.inference Toy.x_o
                    0%nat H12)).
  - exact (proj2 (CellFacts.more_rounds_extend (Toy.lib (Some 7%nat)) tt Toy.prior
                    Toy.inference Toy.x_o 0%nat H23) _ Hr).
Defined.

(** X8 on a cell of two rounds: the sampling cell samples the second
    posterior. *)
Lemma sample_cell_uses_last_posterior_witness :
  (1 <= 2)%Z /\
  fst (run0 2 0%nat) = Ok tt /\
  exists (de post : nat),
    nth_error (built (log (snd (run0 2 0%nat)))) (range_len 2 - 1)
    = Some (Toy.inference, de, post) /\
    fst (sample_cell Toy.x_o toy_sample 0%nat (snd (run0 2 0%nat)))
    = fst (toy_sample post [10000%Z] Toy.x_o (world (snd (run0 2 0%nat)))).
Proof.
  assert (HR : (1 <= 2)%Z) by lia.
  assert (Hok : fst (run0 2 0%nat) = Ok tt) by (vm_compute; reflexivity).
  split; [exact HR | split; [exact Hok |]].
  destruct (CellFacts.sample_cell_uses_last_posterior L0 tt Toy.prior Toy.inference Toy.x_o
              toy_sample 0%nat 0%nat HR Hok) as (de & post & Hb & _ & _ & Hs & _).
  exists de, post. split; [exact Hb | exact Hs].
Defined.

(** The generic formula of the first cell's simulator on rational numbers. *)
Lemma simulator_lambda_formula_witness :
  Toy.randn_like [0; 1; 2]%Q [1; -1; 3]%Q = ([1; -1; 3]%Q, []) /\
  length [1; -1; 3]%Q = length [0; 1; 2]%Q /\
  exists out : list Q,
    simulator_lambda Qplus Qmult (1 # 10)%Q Toy.randn_like [0; 1; 2]%Q [1; -1; 3]%Q
    = (Some out, []) /\
    length out = 3%nat.
Proof.
  split; [reflexivity | split; [reflexivity |]].
  destruct (LambdaFacts.simulator_lambda_formula Qplus Qmult (1 # 10)%Q Toy.randn_like
              [0; 1; 2]%Q [1; -1; 3]%Q eq_refl eq_refl) as (out & Hrun & Hlen & _).
  exists out. split; [exact Hrun | exact Hlen].
Defined.

Lemma toy_randn_like_shape (t t' g0 : list Q) :
  length t = length t' -> Toy.randn_like t g0 = Toy.randn_like t' g0.
Proof.
  intros H. unfold Toy.randn_like. now rewrite H.
Qed.

(** X11 on rational numbers. *)
Lemma linear_gaussian_is_shifted_lambda_witness :
  (forall t t' g0 : list Q, length t = length t' -> Toy.randn_like t g0 = Toy.randn_like t' g0) /\
  Toy.linear_gaussian [0; 1; 2]%Q [1; -1; 3]%Q
  = simulator_lambda Qplus Qmult (1 # 10)%Q Toy.randn_like
      (LinearGaussian.add_scalar Qplus [0; 1; 2]%Q 1%Q) [1; -1; 3]%Q.
Proof.
  split; [exact toy_randn_like_shape |].
  exact (LambdaFacts.linear_gaussian_is_shifted_lambda Qplus Qmult 1%Q (1 # 10)%Q
           Toy.randn_like [0; 1; 2]%Q [1; -1; 3]%Q toy_randn_like_shape).
Defined.

End MoreChecks.

(** * The simulators on float32 tensors *)

Module Float32Facts.

Lemma fmul_comm (x y : spec_float) : Float32.fmul x y = Float32.fmul y x.
Proof.
  unfold Float32.fmul.
  destruct x as [sx | sx | | sx mx ex], y as [sy | sy | | sy my ey]; cbn;
    rewrite ?(xorb_comm sx sy); try reflexivity.
  now rewrite (Pos.mul_comm mx my), (Z.add_comm ex ey).
Qed.

Lemma one_bits : Float32.one = S754_finite false 8388608 (-23).
Proof. vm_compute. reflexivity. Qed.

Lemma tenth_bits : Float32.tenth = S754_finite false 13421773 (-27).
Proof. vm_compute. reflexivity. Qed.

Lemma one_value : Float32.value_is Float32.one 1.
Proof. rewrite one_bits. vm_compute. reflexivity. Qed.

Lemma tenth_value :
  exists q : Q, Float32.value_is Float32.tenth q /\ (Qabs (q - (1 # 10)) <= 1 # 268435456)%Q.
Proof.
  exists (13421773 # 134217728)%Q. rewrite tenth_bits. split.
  - vm_compute. reflexivity.
  - vm_compute. discriminate.
Qed.

(** Adding a product with a zero leaves a number as it is, but for the
    sign of a zero. *)
Lemma add_zero_noise (x : spec_float) (s : bool) :
  x <> S754_zero (negb s) ->
  Float32.fadd x (Float32.fmul (S754_zero s) Float32.tenth) = x.
Proof.
  intros Hx. rewrite tenth_bits. unfold Float32.fadd, Float32.fmul. cbn [SFmul].
  rewrite xorb_false_r.
  destruct x as [sx | sx | | sx mx ex]; cbn; try reflexivity.
  destruct sx, s; cbn in Hx |- *; try reflexivity; now contradiction Hx.
Qed.

Section Facts.

Variable Gen : Type.
Variable randn_like : list spec_float -> Gen -> list spec_float * Gen.

(** C7.  On float32 tensors, for every parameter tensor [theta] and every
    noise tensor [eps] that [randn_like] returns for it (a tensor of the
    shape of [theta]), [linear_gaussian theta] is
    [theta + 1.0 + 0.1 * eps] entry by entry: it has as many entries as
    [theta] (three for the 3-dimensional parameter of the example) and
    entry [i] is [(theta_i + 1.0) + 0.1 * eps_i], each operation rounded
    to float32.  The constant is the float32 number 1.0, whose value is
    exactly 1; the noise scale is the float32 number 0.1, which is within
    half a unit in the last place (2^-28) of 1/10.  The generator is left
    as [randn_like] left it. *)
Theorem linear_gaussian_float32 (theta eps : list spec_float) (g g' : Gen) :
  randn_like theta g = (eps, g') ->
  length eps = length theta ->
  Float32.linear_gaussian randn_like theta g = (Some (Float32.observation theta eps), g') /\
  length (Float32.observation theta eps) = length theta /\
  (forall (i : nat) (d : spec_float),
      (i < length theta)%nat ->
      nth i (Float32.observation theta eps) d
      = Float32.fadd (Float32.fadd (nth i theta d) Float32.one)
                     (Float32.fmul Float32.tenth (nth i eps d))) /\
  Float32.value_is Float32.one 1 /\
  exists q : Q, Float32.value_is Float32.tenth q /\ (Qabs (q - (1 # 10)) <= 1 # 268435456)%Q.
Proof.
  intros Hrand Hlen.
  destruct (LinearGaussianFacts.linear_gaussian_formula
              Float32.fadd Float32.fmul Float32.one Float32.tenth randn_like theta g
              fmul_comm Hrand Hlen) as (Hrun & Hsize & Hnth).
  split; [exact Hrun | split; [exact Hsize | split; [exact Hnth | split]]].
  - exact one_value.
  - exact tenth_value.
Qed.

(** X10.  On float32 tensors, for a noise tensor [eps] of the shape of
    [theta], the first cell's simulator returns a tensor of that shape
    whose entry [i] is [theta_i + eps_i * 0.1], the scale being the
    float32 number 0.1 (within 2^-28 of 1/10) and there being no offset:
    where the noise is a zero the entry is the parameter entry itself,
    unless that is a zero of the other sign. *)
Theorem simulator_float32 (theta eps : list spec_float) (g g' : Gen) :
  randn_like theta g = (eps, g') ->
  length eps = length theta ->
  exists out : list spec_float,
    Float32.simulator randn_like theta g = (Some out, g') /\
    length out = length theta /\
    (forall (i : nat) (d : spec_float),
        (i < length theta)%nat ->
        nth i out d = Float32.fadd (nth i theta d) (Float32.fmul (nth i eps d) Float32.tenth)) /\
    (forall (i : nat) (d : spec_float) (s : bool),
        (i < length theta)%nat ->
        nth i eps d = S754_zero s ->
        nth i theta d <> S754_zero (negb s) ->
        nth i out d = nth i theta d) /\
    exists q : Q, Float32.value_is Float32.tenth q /\ (Qabs (q - (1 # 10)) <= 1 # 268435456)%Q.
Proof.
  intros Hrand Hlen.
  destruct (LambdaFacts.simulator_lambda_formula
              Float32.fadd Float32.fmul Float32.tenth randn_like theta g Hrand Hlen)
    as (out & Hrun & Hsize & Hnth).
  exists out. split; [exact Hrun | split; [exact Hsize | split; [exact Hnth | split]]].
  - intros i d s Hi Heps Htheta. rewrite (Hnth i d Hi), Heps.
    exact (@add_zero_noise _ _ Htheta).
  - exact tenth_value.
Qed.

End Facts.

(** C7 on theta = (0, 1, 2) and noise (1, -1, 3): the result is the
    float32 tensor (1.1, 1.9, 3.3), that is 9227469 * 2^-23,
    15938355 * 2^-23 and 13841203 * 2^-22. *)
Lemma linear_gaussian_float32_witness :
  Float32.stream_randn_like
    [Float32.of_Z 0; Float32.of_Z 1; Float32.of_Z 2]
    [Float32.of_Z 1; Float32.of_Z (-1); Float32.of_Z 3]
  = ([Float32.of_Z 1; Float32.of_Z (-1); Float32.of_Z 3], []) /\
  length [Float32.of_Z 1; Float32.of_Z (-1); Float32.of_Z 3]
  = length [Float32.of_Z 0; Float32.of_Z 1; Float32.of_Z 2] /\
  Float32.linear_gaussian Float32.stream_randn_like
    [Float32.of_Z 0; Float32.of_Z 1; Float32.of_Z 2]
    [Float32.of_Z 1; Float32.of_Z (-1); Float32.of_Z 3]
  = (Some [S754_finite false 9227469 (-23); S754_finite false 15938355 (-23);
           S754_finite false 13841203 (-22)], []).
Proof.
  assert (Hrand : Float32.stream_randn_like
                    [Float32.of_Z 0; Float32.of_Z 1; Float32.of_Z 2]
                    [Float32.of_Z 1; Float32.of_Z (-1); Float32.of_Z 3]
                  = ([Float32.of_Z 1; Float32.of_Z (-1); Float32.of_Z 3], []))
    by (vm_compute; reflexivity).
  assert (Hlen : length [Float32.of_Z 1; Float32.of_Z (-1); Float32.of_Z 3]
                 = length [Float32.of_Z 0; Float32.of_Z 1; Float32.of_Z 2])
    by reflexivity.
  assert (Hval : Float32.observation [Float32.of_Z 0; Float32.of_Z 1; Float32.of_Z 2]
                                     [Float32.of_Z 1; Float32.of_Z (-1); Float32.of_Z 3]
                 = [S754_finite false 9227469 (-23); S754_finite false 15938355 (-23);
                    S754_finite false 13841203 (-22)])
    by (vm_compute; reflexivity).
  split; [exact Hrand | split; [exact Hlen |]].
  destruct (linear_gaussian_float32 Float32.stream_randn_like _ _ Hrand Hlen) as (Hrun & _).
  rewrite Hrun, Hval. reflexivity.
Defined.

(** X10 on the same tensors: the result is (0.1, 0.9, 2.3) in float32. *)
Lemma simulator_float32_witness :
  Float32.stream_randn_like
    [Float32.of_Z 0; Float32.of_Z 1; Float32.of_Z 2]
    [Float32.of_Z 1; Float32.of_Z (-1); Float32.of_Z 3]
  = ([Float32.of_Z 1; Float32.of_Z (-1); Float32.of_Z 3], []) /\
  length [Float32.of_Z 1; Float32.of_Z (-1); Float32.of_Z 3]
  = length [Float32.of_Z 0; Float32.of_Z 1; Float32.of_Z 2] /\
  exists out : list spec_float,
    Float32.simulator Float32.stream_randn_like
      [Float32.of_Z 0; Float32.of_Z 1; Float32.of_Z 2]
      [Float32.of_Z 1; Float32.of_Z (-1); Float32.of_Z 3]
    = (Some out, []) /\
    nth 1 out S754_nan = S754_finite false 15099494 (-24).
Proof.
  assert (Hrand : Float32.stream_randn_like
                    [Float32.of_Z 0; Float32.of_Z 1; Float32.of_Z 2]
                    [Float32.of_Z 1; Float32.of_Z (-1); Float32.of_Z 3]
                  = ([Float32.of_Z 1; Float32.of_Z (-1); Float32.of_Z 3], []))
    by (vm_compute; reflexivity).
  assert (Hlen : length [Float32.of_Z 1; Float32.of_Z (-1); Float32.of_Z 3]
                 = length [Float32.of_Z 0; Float32.of_Z 1; Float32.of_Z 2])
    by reflexivity.
  split; [exact Hrand | split; [exact Hlen |]].
  destruct (simulator_float32 Float32.stream_randn_like _ _ Hrand Hlen)
    as (out & Hrun & _ & Hnth & _).
  exists out. split; [exact Hrun |].
  assert (H1 : (1 < length [Float32.of_Z 0; Float32.of_Z 1; Float32.of_Z 2])%nat)
    by (cbn [length]; lia).
  rewrite (Hnth 1%nat S754_nan H1).
  vm_compute. reflexivity.
Defined.

End Float32Facts.
